(** * graphviz2drawio: curve geometry, edge reconstruction, attribute inheritance

    A shallow embedding of
      - [graphviz2drawio/mx/GraphObj.py]
      - [graphviz2drawio/mx/Curve.py]
      - [graphviz2drawio/mx/EdgeFactory.py]
      - [graphviz2drawio/models/SVG.py]
    together with the properties the specification states about them.

    Conventions of the embedding.
      - Python floats are modelled twice.  The rationals [Q], with exact
        arithmetic and [Qeq] (written [==]) for Python's [==], carry
        the properties that rest on comparisons, on moves of values
        and on products by 0 and 1, which binary64 performs exactly.
        The module [B64] holds the line and the linearity test over
        binary64 floats, with their rounding, for what depends on it.
      - A Python [complex] is a pair of floats, the record [complex].
      - Python strings are [string]; the separators the code looks for
        are ASCII.
      - A raised exception is the left injection of [res]; the code that
        follows a raising expression is not run. *)

From Stdlib Require Import Ascii QArith Qabs Qminmax Qfield Lqa.
From Stdlib Require PrimFloat.
From stdpp Require Import base option list strings gmap.

Set Warnings "-register-all".
Local Open Scope string_scope.

(** ** Elements, exceptions and the result monad *)

(** [xml.etree.ElementTree.Element]: a tag, an attribute dictionary, an
    optional text and the direct children in document order. *)
Inductive Element : Type :=
  mkElement {
    tag : string;
    attrib : gmap string string;
    text : option string;
    children : list Element
  }.

(** Modelled from the spec: [MissingTitleError], whose declaration in
    [models/Errors.py] is not among the four modules; by section 7 it
    carries a reference to the offending element.  The other
    constructors are the built-in exceptions the modelled code can
    raise, and [Raised] stands for whatever a collaborator outside the
    four modules raised, with its description. *)
Inductive exn : Type :=
| MissingTitleError (g : Element)
| ValueError (msg : string)
| KeyError (key : string)
| AttributeError (type attr : string)
| TypeError (msg : string)
| IndexError (msg : string)
| Raised (what : string).

(** A computation that returns an [A] or raises. *)
Definition res (A : Type) : Type := exn + A.

Definition ok {A} (a : A) : res A := inr a.
Definition raise {A} (e : exn) : res A := inl e.

#[export] Instance res_ret : MRet res := fun A a => inr a.
#[export] Instance res_bind : MBind res := fun A B f m =>
  match m with
  | inl e => inl e
  | inr a => f a
  end.

#[export] Instance res_fmap : FMap res := fun A B f m =>
  match m with
  | inl e => inl e
  | inr a => inr (f a)
  end.

(** Whether a computation raised. *)
Definition raises {A} (m : res A) : bool :=
  match m with
  | inl _ => true
  | inr _ => false
  end.

(** ** Python values *)

(** The fragment of Python's value universe the four modules touch. *)
Inductive pyval : Type :=
| VNone
| VBool (b : bool)
| VFloat (x : Q)
| VComplex (re im : Q)
| VStr (s : string)
| VList (xs : list pyval)
| VMethod (name : string).

(** [v is not None] *)
Definition is_not_None (v : pyval) : bool :=
  match v with
  | VNone => false
  | _ => true
  end.

(** ** Python string methods *)

Module Str.

(** [s.startswith(p)] *)
Fixpoint startswith (p s : string) : bool :=
  match p, s with
  | EmptyString, _ => true
  | String a p', String b s' => if Ascii.eqb a b then startswith p' s' else false
  | String _ _, EmptyString => false
  end.

(** Left-to-right scan of [s.replace(old, new)] for a non-empty [old];
    [skip] counts the characters of a match still to be dropped. *)
Fixpoint replace_go (old new : string) (skip : nat) (s : string) : string :=
  match s with
  | EmptyString => EmptyString
  | String c s' =>
      match skip with
      | S k => replace_go old new k s'
      | O =>
          if startswith old s
          then new +:+ replace_go old new (String.length old - 1) s'
          else String c (replace_go old new 0 s')
      end
  end.

(** [new] after every character of [s]. *)
Fixpoint interleave (new s : string) : string :=
  match s with
  | EmptyString => EmptyString
  | String c s' => String c (new +:+ interleave new s')
  end.

(** [s.replace(old, new)]: every non-overlapping occurrence of [old],
    leftmost first; an empty [old] matches before every character and
    at the end. *)
Definition replace (old new s : string) : string :=
  match old with
  | EmptyString => new +:+ interleave new s
  | String _ _ => replace_go old new 0 s
  end.

(** Push a character onto the piece being built. *)
Definition push (c : Ascii.ascii) (pieces : list string) : list string :=
  match pieces with
  | [] => [String c EmptyString]
  | h :: t => String c h :: t
  end.

(** Left-to-right scan of [s.split(sep)] for a non-empty [sep]. *)
Fixpoint split_go (sep : string) (skip : nat) (s : string) : list string :=
  match s with
  | EmptyString => [EmptyString]
  | String c s' =>
      match skip with
      | S k => split_go sep k s'
      | O =>
          if startswith sep s
          then EmptyString :: split_go sep (String.length sep - 1) s'
          else push c (split_go sep 0 s')
      end
  end.

(** [s.split(sep)]; Python raises [ValueError] on an empty separator. *)
Definition split (sep s : string) : res (list string) :=
  match sep with
  | EmptyString => raise (ValueError "empty separator")
  | String _ _ => ok (split_go sep 0 s)
  end.

(** The character [c] does not occur in [s]. *)
Fixpoint lacks (c : Ascii.ascii) (s : string) : bool :=
  match s with
  | EmptyString => true
  | String a s' => negb (Ascii.eqb a c) && lacks c s'
  end.

(** [p in s]: the string [p] occurs somewhere in [s]. *)
Fixpoint occurs (p s : string) : bool :=
  match s with
  | EmptyString => startswith p EmptyString
  | String _ s' => startswith p s || occurs p s'
  end.

(** The last character of [s] is [c]. *)
Fixpoint ends_with (c : Ascii.ascii) (s : string) : bool :=
  match s with
  | EmptyString => false
  | String a EmptyString => Ascii.eqb a c
  | String _ s' => ends_with c s'
  end.

End Str.

(** Indexing a list, [l[i]] for [i >= 0]. *)
Definition getitem {A} (l : list A) (i : nat) : res A :=
  match l !! i with
  | Some a => ok a
  | None => raise (IndexError "list index out of range")
  end.

(** Unpacking into two targets, [a, b = l]. *)
Definition unpack2 {A} (l : list A) : res (A * A) :=
  match l with
  | [a; b] => ok (a, b)
  | [] | [_] => raise (ValueError "not enough values to unpack (expected 2)")
  | _ => raise (ValueError "too many values to unpack (expected 2)")
  end.

(** ** models/SVG.py *)

Module SVG.

Definition NS_SVG : string := "{http://www.w3.org/2000/svg}".

Definition svg_tag (t : string) : string := NS_SVG +:+ t.

(** [g.find("./{ns}tag")]: the first direct child with that tag, for a
    tag that is a plain name, as the literals the code passes; a tag
    that holds path syntax ([*], [/], a predicate) is outside the
    model. *)
Definition get_first (g : Element) (t : string) : option Element :=
  List.find (fun c => String.eqb (tag c) (NS_SVG +:+ t)) (children g).

(** [len(g.findall("./{ns}tag"))], for a plain tag name likewise. *)
Definition count_tags (g : Element) (t : string) : nat :=
  length (List.filter (fun c => String.eqb (tag c) (NS_SVG +:+ t)) (children g)).

Definition get_title (g : Element) : option string :=
  match get_first g "title" with
  | Some title_el => text title_el
  | None => None
  end.

Definition get_text (g : Element) : option string :=
  match get_first g "text" with
  | Some text_el => text text_el
  | None => None
  end.

Definition is_tag (g : Element) (t : string) : bool :=
  String.eqb (tag g) (svg_tag t).

End SVG.

(** ** mx/Curve.py *)

(** A Python [complex]: the point [(real, imag)]. *)
Record complex : Type := Complex { real : Q; imag : Q }.

(** [a == b] on complex numbers. *)
Definition complex_eqb (a b : complex) : bool :=
  Qeq_bool (real a) (real b) && Qeq_bool (imag a) (imag b).

(** Numeric equality of points, as a proposition. *)
Definition ceq (a b : complex) : Prop :=
  (real a == real b)%Q /\ (imag a == imag b)%Q.

Definition of_complex (z : complex) : pyval := VComplex (real z) (imag z).

(** [svg.path.CubicBezier]: the four control points of a segment. *)
Record CubicBezier : Type :=
  mkCubicBezier {
    cb_start : complex;
    control1 : complex;
    control2 : complex;
    cb_end : complex
  }.

(** *** Dynamic operations on values *)

Module Py.

Definition type_name (v : pyval) : string :=
  match v with
  | VNone => "NoneType"
  | VBool _ => "bool"
  | VFloat _ => "float"
  | VComplex _ _ => "complex"
  | VStr _ => "str"
  | VList _ => "list"
  | VMethod _ => "method"
  end.

(** A number as (is it complex, real part, imaginary part). *)
Definition numeric (v : pyval) : option (bool * Q * Q) :=
  match v with
  | VBool b => Some (false, if b then 1%Q else 0%Q, 0%Q)
  | VFloat x => Some (false, x, 0%Q)
  | VComplex re im => Some (true, re, im)
  | _ => None
  end.

Definition mk_num (cx : bool) (re im : Q) : pyval :=
  if cx then VComplex re im else VFloat re.

(** [getattr(v, name)] for the data attributes [real] and [imag] of
    numbers; sequences, strings and [None] have neither. *)
Definition getattr (v : pyval) (name : string) : res pyval :=
  match numeric v with
  | Some (_, re, im) =>
      if String.eqb name "real" then ok (VFloat re)
      else if String.eqb name "imag" then ok (VFloat im)
      else raise (AttributeError (type_name v) name)
  | None => raise (AttributeError (type_name v) name)
  end.

(** [v[i]]: lists are subscriptable, numbers are not. *)
Definition getitem (v : pyval) (i : nat) : res pyval :=
  match v with
  | VList xs => getitem xs i
  | _ => raise (TypeError ("'" +:+ type_name v +:+ "' object is not subscriptable"))
  end.

(** [for x in v]: the items iterated over. *)
Definition iter (v : pyval) : res (list pyval) :=
  match v with
  | VList xs => ok xs
  | _ => raise (TypeError ("'" +:+ type_name v +:+ "' object is not iterable"))
  end.

(** [a * b] on numbers. *)
Definition mul (a b : pyval) : res pyval :=
  match numeric a, numeric b with
  | Some (c1, r1, i1), Some (c2, r2, i2) =>
      ok (mk_num (c1 || c2) (r1 * r2 - i1 * i2)%Q (r1 * i2 + i1 * r2)%Q)
  | _, _ => raise (TypeError "unsupported operand type(s) for *")
  end.

(** [a - b] on numbers. *)
Definition sub (a b : pyval) : res pyval :=
  match numeric a, numeric b with
  | Some (c1, r1, i1), Some (c2, r2, i2) =>
      ok (mk_num (c1 || c2) (r1 - r2)%Q (i1 - i2)%Q)
  | _, _ => raise (TypeError "unsupported operand type(s) for -")
  end.

(** [a + b] on numbers, and concatenation of lists. *)
Definition add (a b : pyval) : res pyval :=
  match numeric a, numeric b with
  | Some (c1, r1, i1), Some (c2, r2, i2) =>
      ok (mk_num (c1 || c2) (r1 + r2)%Q (i1 + i2)%Q)
  | _, _ =>
      match a, b with
      | VList xs, VList ys => ok (VList (xs ++ ys))
      | _, _ => raise (TypeError "unsupported operand type(s) for +")
      end
  end.

(** [complex(x, y)], that is [x + y*1j]. *)
Definition complex_of (x y : pyval) : res pyval :=
  match numeric x, numeric y with
  | Some (_, r1, i1), Some (_, r2, i2) => ok (VComplex (r1 - i2)%Q (i1 + r2)%Q)
  | _, _ => raise (TypeError "complex() argument must be a number")
  end.

(** [math.isclose(a, b, rel_tol=rel_tol)] with the default
    [abs_tol = 0.0], after CPython's [math_isclose_impl]; the
    [ValueError] for a negative tolerance is left out, the only
    tolerance passed being the literal [0.01]. *)
Definition isclose (a b rel_tol : Q) : bool :=
  if Qeq_bool a b then true
  else
    let diff := Qabs (b - a) in
    Qle_bool diff (Qabs (rel_tol * b))
    || Qle_bool diff (Qabs (rel_tol * a))
    || Qle_bool diff 0.

End Py.

(** ** mx/GraphObj.py *)

Module GraphObj.

(** An instance is its attribute dictionary [__dict__]. *)
Record t : Type := Build { __dict__ : gmap string pyval }.

(** [GraphObj.__init__(self, sid, gid)] *)
Definition __init__ (sid gid : pyval) : t :=
  {| __dict__ := <["gid" := gid]> (<["sid" := sid]> ∅) |}.

(** The guard of the loop body:
    [k in self.__dict__ and self.__dict__[k] is not None]. *)
Definition owns (d : gmap string pyval) (k : string) : bool :=
  match d !! k with
  | Some v => is_not_None v
  | None => false
  end.

(** The names [object.__setattr__] refuses on an instance of a plain
    class, for the values of the modelled universe: [__class__] takes a
    class only, [__dict__] a dictionary only, [__weakref__] nothing. *)
Definition refused (k : string) : bool :=
  String.eqb k "__class__" || String.eqb k "__dict__"
  || String.eqb k "__weakref__".

(** The names whose assignment raises or makes later assignments raise. *)
Definition reserved (k : string) : bool :=
  refused k || String.eqb k "__setattr__".

(** [self.__setattr__(k, v)].  The attribute [__setattr__] is looked up
    on the instance first: once the dictionary binds that name, the
    bound value is called in place of [object.__setattr__], and no
    value of the universe accepts the call (a method of [Curve] raises
    on a name and a value, anything else is not callable).  Otherwise
    [object.__setattr__] stores the value, except under the names it
    refuses. *)
Definition assign (d : gmap string pyval) (k : string) (v : pyval)
  : res (gmap string pyval) :=
  match d !! "__setattr__" with
  | Some (VMethod _) => raise (Raised "call of the method bound to __setattr__")
  | Some f => raise (TypeError ("'" +:+ Py.type_name f +:+ "' object is not callable"))
  | None =>
      if String.eqb k "__class__"
      then raise (TypeError ("__class__ must be set to a class, not '"
                             +:+ Py.type_name v +:+ "' object"))
      else if String.eqb k "__dict__"
      then raise (TypeError ("__dict__ must be set to a dictionary, not a '"
                             +:+ Py.type_name v +:+ "'"))
      else if String.eqb k "__weakref__"
      then raise (AttributeError "GraphObj" "__weakref__")
      else ok (<[k := v]> d)
  end.

(** The [for k, v in attrs] loop on the dictionary of [self]: the
    dictionary it leaves, and the exception that stopped it, if any. *)
Fixpoint enrich_loop (d : gmap string pyval) (attrs : list (string * pyval))
  : gmap string pyval * option exn :=
  match attrs with
  | [] => (d, None)
  | (k, v) :: rest =>
      if owns d k then enrich_loop d rest
      else
        match assign d k v with
        | inl e => (d, Some e)
        | inr d' => enrich_loop d' rest
        end
  end.

(** [GraphObj.enrich_from_graph(self, attrs)]: the object as the call
    leaves it, and [None] for a normal return or the exception
    raised. *)
Definition enrich_from_graph (self : t) (attrs : list (string * pyval))
  : t * option exn :=
  let r := enrich_loop (__dict__ self) attrs in
  ({| __dict__ := r.1 |}, r.2).

(** One iteration of the loop when the assignment goes through. *)
Definition store_step (d : gmap string pyval) (kv : string * pyval)
  : gmap string pyval :=
  if owns d kv.1 then d else <[kv.1 := kv.2]> d.

(** A pair is settled in [d] when such an iteration leaves [d] as it is. *)
Definition settled (d : gmap string pyval) (kv : string * pyval) : Prop :=
  store_step d kv = d.

End GraphObj.

(** *** Module-level helpers of [Curve.py] *)

Local Open Scope Q_scope.

(** [_line(start, end)]: the function [y] of the line through the two
    points, or [None] when they have the same abscissa. *)
Definition _line (start end_ : complex) : option (Q -> Q) :=
  let denom := real end_ - real start in
  if Qeq_bool denom 0 then None
  else
    let m := (imag end_ - imag start) / denom in
    let b := imag start - (m * real start) in
    Some (fun x => (m * x) + b).

(** [_rotate_bezier(cb)]: swap the real and imaginary part of every
    control point. *)
Definition _rotate_bezier (cb : CubicBezier) : CubicBezier :=
  mkCubicBezier
    (Complex (imag (cb_start cb)) (real (cb_start cb)))
    (Complex (imag (control1 cb)) (real (control1 cb)))
    (Complex (imag (control2 cb)) (real (control2 cb)))
    (Complex (imag (cb_end cb)) (real (cb_end cb))).

(** [_lower_cubic_bezier_to_two_quadratics(P0, P1, P2, P3, t)] *)
Definition _lower_cubic_bezier_to_two_quadratics
    (P0 P1 P2 P3 : complex) (t : Q) : list complex * list complex :=
  let Q0 := P0 in
  let Q1 := Complex ((1 - t) * real P0 + t * real P1)
                    ((1 - t) * imag P0 + t * imag P1) in
  let Q2 := Complex
    ((1 - t) ^ 2 * real P0 + 2 * (1 - t) * t * real P1 + t ^ 2 * real P2)
    ((1 - t) ^ 2 * imag P0 + 2 * (1 - t) * t * imag P1 + t ^ 2 * imag P2) in
  let Q3 := Complex
    ((1 - t) ^ 3 * real P0
     + 3 * (1 - t) ^ 2 * t * real P1
     + 3 * (1 - t) * t ^ 2 * real P2
     + t ^ 3 * real P3)
    ((1 - t) ^ 3 * imag P0
     + 3 * (1 - t) ^ 2 * t * imag P1
     + 3 * (1 - t) * t ^ 2 * imag P2
     + t ^ 3 * imag P3) in
  ([Q0; Q1; Q2], [Q2; Q3; P3]).

(** *** class [Curve] *)

Module Curve.

(** An instance holds the four attributes [__init__] binds. *)
Record t : Type :=
  Build {
    start : complex;
    end_ : complex;
    is_bezier : bool;
    points : list complex
  }.

(** [Curve.__init__(self, start, end, is_bezier, points)] *)
Definition __init__ (start end_ : complex) (is_bezier : bool)
    (points : list complex) : t :=
  {| start := start; end_ := end_; is_bezier := is_bezier; points := points |}.

(** The instance dictionary after [__init__]. *)
Definition instance_dict (self : t) : list (string * pyval) :=
  [ ("start", of_complex (start self));
    ("end", of_complex (end_ self));
    ("is_bezier", VBool (is_bezier self));
    ("points", VList (List.map of_complex (points self))) ].

(** The names the class body defines. *)
Definition class_attrs : list string :=
  [ "__init__"; "__str__"; "is_linear"; "cubic_bezier_coordinates";
    "cubic_bezier_derivative"; "_cb"; "_cubic_bezier";
    "_derivative_of_cubic_bezier" ].

(** [self.<name>]: the instance dictionary first, then the class. *)
Definition getattr (self : t) (name : string) : res pyval :=
  match List.find (fun kv => String.eqb kv.1 name) (instance_dict self) with
  | Some kv => ok kv.2
  | None =>
      if List.existsb (String.eqb name) class_attrs
      then ok (VMethod name)
      else raise (AttributeError "Curve" name)
  end.

(** [Curve._cb(self, prop)]: [[getattr(x, prop) for x in self.cb]] *)
Definition _cb (self : t) (prop : string) : res pyval :=
  cb ← getattr self "cb";
  xs ← Py.iter cb;
  VList <$> mapM (fun x => Py.getattr x prop) xs.

(** [Curve._cubic_bezier(p, t)], the operands evaluated left to right. *)
Definition _cubic_bezier (p : pyval) (t : Q) : res pyval :=
  p_real ← Py.getattr p "real";
  a ← Py.mul (VFloat ((1 - t) ^ 3)) p_real;
  p_imag ← Py.getattr p "imag";
  b ← Py.mul (VFloat (3 * t * ((1 - t) ^ 2))) p_imag;
  ab ← Py.add a b;
  p2 ← Py.getitem p 2;
  c ← Py.mul (VFloat (3 * (t ^ 2) * (1 - t))) p2;
  abc ← Py.add ab c;
  p3 ← Py.getitem p 3;
  d ← Py.mul (VFloat (t ^ 3)) p3;
  Py.add abc d.

(** [Curve.cubic_bezier_coordinates(self, t)] *)
Definition cubic_bezier_coordinates (self : t) (t : Q) : res pyval :=
  px ← _cb self "real";
  x ← _cubic_bezier px t;
  py ← _cb self "imag";
  y ← _cubic_bezier py t;
  Py.complex_of x y.

(** [Curve.is_linear(cb)].  The recursive call is bounded by [fuel];
    [None] means the fuel ran out before a [return] was reached. *)
Fixpoint is_linear (fuel : nat) (cb : CubicBezier) : option bool :=
  match fuel with
  | O => None
  | S fuel' =>
      if complex_eqb (cb_start cb) (cb_end cb) then Some false
      else
        match _line (cb_start cb) (cb_end cb) with
        | None => is_linear fuel' (_rotate_bezier cb)
        | Some y =>
            Some (Py.isclose (y (real (control1 cb))) (imag (control1 cb)) (1 # 100)
                  && Py.isclose (y (real (control2 cb))) (imag (control2 cb)) (1 # 100))
        end
  end.

(** The call [is_linear(cb)] reaches the recursive call of line 36. *)
Definition recurses (cb : CubicBezier) : bool :=
  negb (complex_eqb (cb_start cb) (cb_end cb))
  && match _line (cb_start cb) (cb_end cb) with
     | None => true
     | Some _ => false
     end.

(** [Curve._derivative_of_cubic_bezier(p, t)], the operands evaluated
    left to right. *)
Definition _derivative_of_cubic_bezier (p : pyval) (t : Q) : res pyval :=
  p_imag ← Py.getattr p "imag";
  p_real ← Py.getattr p "real";
  d0 ← Py.sub p_imag p_real;
  a ← Py.mul (VFloat (3 * ((1 - t) ^ 2))) d0;
  p2 ← Py.getitem p 2;
  p_imag' ← Py.getattr p "imag";
  d1 ← Py.sub p2 p_imag';
  b ← Py.mul (VFloat (6 * t * (1 - t))) d1;
  ab ← Py.add a b;
  p3 ← Py.getitem p 3;
  p2' ← Py.getitem p 2;
  d2 ← Py.sub p3 p2';
  c ← Py.mul (VFloat (3 * (t ^ 2))) d2;
  Py.add ab c.

(** [Curve.cubic_bezier_derivative(self, t)] *)
Definition cubic_bezier_derivative (self : t) (t : Q) : res pyval :=
  px ← _cb self "real";
  x ← _derivative_of_cubic_bezier px t;
  py ← _cb self "imag";
  y ← _derivative_of_cubic_bezier py t;
  Py.complex_of x y.

End Curve.

(** ** [Curve.py] over binary64 *)

(** The line and the linearity test with Python's floats as they are:
    IEEE 754 binary64, every operation rounded to nearest. *)
Module B64.

Import PrimFloat.
Local Open Scope float_scope.

(** A Python [complex]: two floats. *)
Record complex : Type := Complex { real : float; imag : float }.

(** [a == b] on complex numbers: both parts equal as floats. *)
Definition complex_eqb (a b : complex) : bool :=
  (real a =? real b) && (imag a =? imag b).

(** [svg.path.CubicBezier] *)
Record CubicBezier : Type :=
  mkCubicBezier {
    cb_start : complex;
    control1 : complex;
    control2 : complex;
    cb_end : complex
  }.

(** [_line(start, end)] *)
Definition _line (start end_ : complex) : option (float -> float) :=
  let denom := real end_ - real start in
  if denom =? 0 then None
  else
    let m := (imag end_ - imag start) / denom in
    let b := imag start - (m * real start) in
    Some (fun x => (m * x) + b).

(** [_rotate_bezier(cb)] *)
Definition _rotate_bezier (cb : CubicBezier) : CubicBezier :=
  mkCubicBezier
    (Complex (imag (cb_start cb)) (real (cb_start cb)))
    (Complex (imag (control1 cb)) (real (control1 cb)))
    (Complex (imag (control2 cb)) (real (control2 cb)))
    (Complex (imag (cb_end cb)) (real (cb_end cb))).

(** [math.isinf(x)] *)
Definition isinf (x : float) : bool := abs x =? infinity.

(** The literal [0.01]: the binary64 number nearest to it. *)
Definition rel_tol : float := 0x1.47ae147ae147bp-7.

(** [math.isclose(a, b, rel_tol=rel_tol)] with the default
    [abs_tol = 0.0], after CPython's [math_isclose_impl]. *)
Definition isclose (a b rel_tol : float) : bool :=
  if a =? b then true
  else if isinf a || isinf b then false
  else
    let diff := abs (b - a) in
    (diff <=? abs (rel_tol * b))
    || (diff <=? abs (rel_tol * a))
    || (diff <=? 0).

(** [Curve.is_linear(cb)], the recursive call bounded by [fuel]. *)
Fixpoint is_linear (fuel : nat) (cb : CubicBezier) : option bool :=
  match fuel with
  | O => None
  | S fuel' =>
      if complex_eqb (cb_start cb) (cb_end cb) then Some false
      else
        match _line (cb_start cb) (cb_end cb) with
        | None => is_linear fuel' (_rotate_bezier cb)
        | Some y =>
            Some (isclose (y (real (control1 cb))) (imag (control1 cb)) rel_tol
                  && isclose (y (real (control2 cb))) (imag (control2 cb)) rel_tol)
        end
  end.

(** The ordinate the code predicts at abscissa [x] on the line through
    [s] and [e]: the slope, the intercept and the sum, each rounded. *)
Definition predicted (s e : complex) (x : float) : float :=
  let m := (imag e - imag s) / (real e - real s) in
  let b := imag s - (m * real s) in
  (m * x) + b.

End B64.

Local Close Scope Q_scope.

(** ** mx/EdgeFactory.py *)

Module EdgeFactory.

(** Modelled from the spec: the class [Edge] of [mx/Edge.py], which is
    not among the four modules.  Section 3 of the specification gives
    its fields: the element id, the two node identifiers, an optional
    curve and the ordered label texts; its constructor stores them. *)
Record Edge (Text : Type) : Type :=
  mkEdge {
    sid : string;
    fr : string;
    to : string;
    curve : option Curve.t;
    labels : list Text
  }.
Arguments mkEdge {Text}.
Arguments sid {Text}.
Arguments fr {Text}.
Arguments to {Text}.
Arguments curve {Text}.
Arguments labels {Text}.

(** A call into a collaborator returns or raises something of its own. *)
Definition call {A} (r : string + A) : res A :=
  match r with
  | inl what => raise (Raised what)
  | inr a => ok a
  end.

(** Lines 18 to 20 of [from_svg]: the two node identifiers of a title. *)
Definition endpoints (title : string) : res (string * string) :=
  tokens ← Str.split "->" (Str.replace "--" "->" title);
  '(fr, to) ← unpack2 tokens;
  fr_parts ← Str.split ":" fr;
  fr ← getitem fr_parts 0;
  to_parts ← Str.split ":" to;
  to ← getitem to_parts 0;
  ok (fr, to).

Section from_svg.

(** The collaborators [Text.from_svg] and
    [self.curve_factory.from_svg], whose modules are not modelled:
    each returns its value or the description of what it raised. *)
Context {Text : Type}.
Variable Text_from_svg : Element -> string + Text.
Variable curve_factory_from_svg : string -> string + Curve.t.

(** Lines 21 to 25: the curve of the first [path] child with a [d]. *)
Definition curve_of (g : Element) : res (option Curve.t) :=
  match SVG.get_first g "path" with
  | Some path =>
      match attrib path !! "d" with
      | Some d => Some <$> call (curve_factory_from_svg d)
      | None => ok None
      end
  | None => ok None
  end.

(** Lines 21 to 26: the labels, the curve and the [Edge] itself, once
    the two node identifiers are known. *)
Definition assemble (g : Element) (fr to : string) : res (Edge Text) :=
  labels ← mapM (fun tag => call (Text_from_svg tag))
             (List.filter (fun tag => SVG.is_tag tag "text") (children g));
  curve ← curve_of g;
  sid ← match attrib g !! "id" with
        | Some i => ok i
        | None => raise (KeyError "id")
        end;
  ok (mkEdge sid fr to curve labels).

(** [EdgeFactory.from_svg(self, g)] *)
Definition from_svg (g : Element) : res (Edge Text) :=
  match SVG.get_title g with
  | None => raise (MissingTitleError g)
  | Some title =>
      '(fr, to) ← endpoints title;
      assemble g fr to
  end.

End from_svg.

End EdgeFactory.

(** ** Reference notions of the specification *)

Module Spec.

Local Open Scope Q_scope.

(** The cubic Bezier point of the docstring of [_cubic_bezier] and of
    section 4.1, on one coordinate:
    B(t) = (1-t)^3 P0 + 3 (1-t)^2 t P1 + 3 (1-t) t^2 P2 + t^3 P3. *)
Definition B1 (p0 p1 p2 p3 t : Q) : Q :=
  (1 - t) ^ 3 * p0 + 3 * (1 - t) ^ 2 * t * p1
  + 3 * (1 - t) * t ^ 2 * p2 + t ^ 3 * p3.

(** [position(t)] of the curve with control points P0..P3. *)
Definition position (P0 P1 P2 P3 : complex) (t : Q) : complex :=
  Complex (B1 (real P0) (real P1) (real P2) (real P3) t)
          (B1 (imag P0) (imag P1) (imag P2) (imag P3) t).

(** The ordinate at [x] of the line through two points of distinct
    abscissa, in two-point form. *)
Definition line_through (s e : complex) (x : Q) : Q :=
  imag s + (imag e - imag s) * (x - real s) / (real e - real s).

(** [a] and [b] agree within the relative tolerance [tol]. *)
Definition within_rel_tol (tol a b : Q) : Prop :=
  Qabs (a - b) <= tol * Qmax (Qabs a) (Qabs b).

(** The invariant of section 3 on a Bezier curve:
    [start == points[0]] and [end == points[-1]]. *)
Definition endpoints_match (c : Curve.t) : Prop :=
  (exists p, head (Curve.points c) = Some p /\ ceq (Curve.start c) p)
  /\ (exists p, last (Curve.points c) = Some p /\ ceq (Curve.end_ c) p).

(** The title child of a group, as the input contract of section 6
    describes it. *)
Definition has_title_child (g : Element) : bool :=
  List.existsb (fun c => String.eqb (tag c) (SVG.svg_tag "title")) (children g).

(** The part of a token before its first colon. *)
Fixpoint before_colon (s : string) : string :=
  match s with
  | EmptyString => EmptyString
  | String c s' =>
      if Ascii.eqb c ":"%char then EmptyString else String c (before_colon s')
  end.

(** An endpoint token of a title, [<node>] or [<node>:<port>]. *)
Definition token (node : string) (port : option string) : string :=
  match port with
  | Some p => node +:+ ":" +:+ p
  | None => node
  end.

(** A token holds neither separator. *)
Definition separator_free (tok : string) : bool :=
  negb (Str.occurs "--" tok) && negb (Str.occurs "->" tok).

(** A tag name made of letters, digits, [_] and [-]: no character that
    [ElementTree]'s path language reads as syntax. *)
Definition name_char (c : ascii) : bool :=
  let n := nat_of_ascii c in
  ((48 <=? n) && (n <=? 57))%nat || ((65 <=? n) && (n <=? 90))%nat
  || ((97 <=? n) && (n <=? 122))%nat || Ascii.eqb c "_" || Ascii.eqb c "-".

Fixpoint name_chars (s : string) : bool :=
  match s with
  | EmptyString => true
  | String c s' => name_char c && name_chars s'
  end.

Definition plain_tag (t : string) : bool :=
  negb (String.eqb t "") && name_chars t.

(** Pairs of a sequence that share a key share the value. *)
Definition consistent (attrs : list (string * pyval)) : Prop :=
  forall k v1 v2, (k, v1) ∈ attrs -> (k, v2) ∈ attrs -> v1 = v2.

End Spec.

(** The direct children of a group that [from_svg] turns into labels. *)
Definition text_children (g : Element) : list Element :=
  List.filter (fun el => SVG.is_tag el "text") (children g).

(** The drawing data [from_svg] hands to the curve factory: the [d] of
    the first [path] child, when there is one. *)
Definition path_data (g : Element) : option string :=
  match SVG.get_first g "path" with
  | Some path => attrib path !! "d"
  | None => None
  end.

(** ** Sample inputs *)

Module Sample.

(** An entity that owns only its identifiers. *)
Definition entity : GraphObj.t := GraphObj.__init__ (VStr "edge1") (VStr "G").

(** A Bezier whose control points lie on the diagonal from 0 to 3+3j. *)
Definition diagonal : CubicBezier :=
  mkCubicBezier (Complex 0 0) (Complex 1 1) (Complex 2 2) (Complex 3 3).

(** A Bezier from 0 to 3j, its endpoints on one vertical. *)
Definition vertical : CubicBezier :=
  mkCubicBezier (Complex 0 0) (Complex 0 1) (Complex 0 2) (Complex 0 3).

(** A self-loop: the curve ends where it starts. *)
Definition loop : CubicBezier :=
  mkCubicBezier (Complex 2 2) (Complex 5 2) (Complex 2 5) (Complex 2 2).

(** Stand-ins for the two collaborators: a label is the text of its
    element, and no path data is understood. *)
Definition label_of (el : Element) : string + string :=
  match text el with
  | Some s => inr s
  | None => inl "text element without text"
  end.

Definition no_curves (d : string) : string + Curve.t :=
  inl "path data not understood".

(** A group with the given children and the id [edge1]. *)
Definition group (kids : list Element) : Element :=
  mkElement (SVG.svg_tag "g") (<["id" := "edge1"]> ∅) None kids.

(** A title element with the given text. *)
Definition title (t : option string) : Element :=
  mkElement (SVG.svg_tag "title") ∅ t [].

End Sample.

(** Further sample inputs. *)
Module Demo.


(** An edge group: a title, two labels, a path with data and one
    without, in that order. *)
Definition labelled : Element :=
  mkElement (SVG.svg_tag "g") (<["id" := "edge7"]> ∅) None
    [ mkElement (SVG.svg_tag "title") ∅ (Some "a:n->b:s") [];
      mkElement (SVG.svg_tag "text") ∅ (Some "first") [];
      mkElement (SVG.svg_tag "path") (<["d" := "M0,0C1,1 2,2 3,3"]> ∅) None [];
      mkElement (SVG.svg_tag "text") ∅ (Some "second") [];
      mkElement (SVG.svg_tag "path") ∅ None [] ].

(** The same group without its id. *)
Definition anonymous : Element :=
  mkElement (SVG.svg_tag "g") ∅ None (children labelled).

(** A stand-in curve factory: whatever the data, the segment from 0
    to 3+3j. *)
Definition one_segment (d : string) : string + Curve.t :=
  inr (Curve.__init__ (Complex 0 0) (Complex 3 3) false
         [Complex 0 0; Complex 3 3]).

(** The edge read off [labelled] with [Sample.label_of] and
    [one_segment]. *)
Definition edge7 : EdgeFactory.Edge string :=
  EdgeFactory.mkEdge "edge7" "a" "b"
    (Some (Curve.__init__ (Complex 0 0) (Complex 3 3) false
             [Complex 0 0; Complex 3 3]))
    ["first"; "second"].

(** A group whose second label has no text. *)
Definition half_labelled : Element :=
  mkElement (SVG.svg_tag "g") (<["id" := "edge8"]> ∅) None
    [ mkElement (SVG.svg_tag "title") ∅ (Some "a--b") [];
      mkElement (SVG.svg_tag "text") ∅ (Some "first") [];
      mkElement (SVG.svg_tag "text") ∅ None [] ].

(** The curve from -2-1j to 4+1j whose two control points are the
    midpoint 1+0j of its chord, in exact coordinates. *)
Definition chord_exact : CubicBezier :=
  mkCubicBezier (Complex (-2) (-1)) (Complex 1 0) (Complex 1 0) (Complex 4 1).

(** An undirected and a directed edge between ports, each with a label
    and a path. *)
Definition ported (title : string) : Element :=
  mkElement (SVG.svg_tag "g") (<["id" := "edge9"]> ∅) None
    [ mkElement (SVG.svg_tag "title") ∅ (Some title) [];
      mkElement (SVG.svg_tag "path") (<["d" := "M0,0L3,3"]> ∅) None [];
      mkElement (SVG.svg_tag "text") ∅ (Some "lbl") [] ].

Definition ported_undirected : Element := ported "A:west--B:east".

Definition ported_directed : Element := ported "A:west->B:east".

(** An entity whose colour is bound to [None]. *)
Definition colourless : GraphObj.t :=
  {| GraphObj.__dict__ :=
       <["color" := VNone]> (GraphObj.__dict__ Sample.entity) |}.

End Demo.

(** Sample inputs over binary64. *)
Module Demo64.

Import PrimFloat.
Local Open Scope float_scope.

(** The curve [Demo.chord_exact]; its coordinates are small integers,
    which binary64 holds exactly. *)
Definition chord : B64.CubicBezier :=
  B64.mkCubicBezier (B64.Complex (-2) (-1)) (B64.Complex 1 0)
    (B64.Complex 1 0) (B64.Complex 4 1).

(** A self-loop at 2+2j. *)
Definition loop : B64.CubicBezier :=
  B64.mkCubicBezier (B64.Complex 2 2) (B64.Complex 5 2)
    (B64.Complex 2 5) (B64.Complex 2 2).

(** A curve along the diagonal from 0 to 4+4j. *)
Definition diagonal : B64.CubicBezier :=
  B64.mkCubicBezier (B64.Complex 0 0) (B64.Complex 1 1)
    (B64.Complex 2 2) (B64.Complex 4 4).

End Demo64.

(** * Properties *)

(** ** Attribute inheritance ([GraphObj.enrich_from_graph]) *)

Section enrich_facts.
Import GraphObj.
Implicit Types (d : gmap string pyval) (kv : string * pyval)
  (attrs : list (string * pyval)).

Lemma not_owned_lookup d k v :
  d !! k = Some v -> owns d k = false -> v = VNone.
Proof.
  unfold owns. intros ->. by destruct v.
Qed.

Lemma store_step_keeps d kv k v :
  d !! k = Some v -> is_not_None v = true -> store_step d kv !! k = Some v.
Proof.
  intros Hk Hv. unfold store_step.
  destruct (owns d kv.1) eqn:Ho; [done|].
  destruct (decide (kv.1 = k)) as [e|ne].
  - unfold owns in Ho. rewrite e, Hk, Hv in Ho. done.
  - by rewrite lookup_insert_ne.
Qed.

Lemma enrich_keeps attrs : forall d k v,
  d !! k = Some v -> is_not_None v = true ->
  foldl store_step d attrs !! k = Some v.
Proof.
  induction attrs as [|kv attrs IH]; intros d k v Hk Hv; simpl; [done|].
  apply IH; [|done]. by apply store_step_keeps.
Qed.

Lemma owns_spec d k :
  owns d k = true <-> exists v, d !! k = Some v /\ is_not_None v = true.
Proof.
  unfold owns. destruct (d !! k) as [v|]; split.
  - intros H. by exists v.
  - by intros (? & [= <-] & ?).
  - done.
  - by intros (? & ? & ?).
Qed.

Lemma owns_step d kv k : owns d k = true -> owns (store_step d kv) k = true.
Proof.
  rewrite !owns_spec. intros (v & Hk & Hv). exists v. split; [|done].
  by apply store_step_keeps.
Qed.

Lemma settled_owned d kv : owns d kv.1 = true -> settled d kv.
Proof. unfold settled, store_step. by intros ->. Qed.

Lemma settled_bound d kv : d !! kv.1 = Some kv.2 -> settled d kv.
Proof.
  intros H. unfold settled, store_step.
  destruct (owns d kv.1); [done|]. by apply insert_id.
Qed.

Lemma settled_inv d kv :
  settled d kv -> owns d kv.1 = true \/ d !! kv.1 = Some kv.2.
Proof.
  unfold settled, store_step. destruct (owns d kv.1); [by left|].
  intros H. right. rewrite <- H. apply lookup_insert_eq.
Qed.

Lemma settled_self d kv : settled (store_step d kv) kv.
Proof.
  destruct (owns d kv.1) eqn:Ho.
  - replace (store_step d kv) with d by (unfold store_step; by rewrite Ho).
    by apply settled_owned.
  - replace (store_step d kv) with (<[kv.1 := kv.2]> d)
      by (unfold store_step; by rewrite Ho).
    apply settled_bound, lookup_insert_eq.
Qed.

Lemma settled_step d x kv : settled d kv -> settled (store_step d x) kv.
Proof.
  intros [Ho|Hb]%settled_inv.
  - by apply settled_owned, owns_step.
  - destruct (owns d kv.1) eqn:Ho; [by apply settled_owned, owns_step|].
    pose proof (not_owned_lookup _ _ _ Hb Ho) as Hnone.
    unfold store_step. destruct (owns d x.1) eqn:Hx; [by apply settled_bound|].
    destruct (decide (x.1 = kv.1)) as [e|ne].
    + destruct (is_not_None x.2) eqn:Hv.
      * apply settled_owned, owns_spec. exists x.2.
        by rewrite e, lookup_insert_eq.
      * apply settled_bound. rewrite e, lookup_insert_eq, Hnone.
        f_equal. by destruct x.2.
    + apply settled_bound. by rewrite lookup_insert_ne.
Qed.

Lemma settled_foldl attrs : forall d kv,
  settled d kv -> settled (foldl store_step d attrs) kv.
Proof.
  induction attrs as [|x attrs IH]; intros d kv H; simpl; [done|].
  by apply IH, settled_step.
Qed.

Lemma enrich_settles attrs : forall d,
  Forall (settled (foldl store_step d attrs)) attrs.
Proof.
  induction attrs as [|x attrs IH]; intros d; simpl; constructor.
  - apply settled_foldl, settled_self.
  - apply IH.
Qed.

Lemma foldl_settled attrs d :
  Forall (settled d) attrs -> foldl store_step d attrs = d.
Proof.
  induction 1 as [|x attrs Hx _ IH]; simpl; [done|]. by rewrite Hx.
Qed.

Lemma owns_insert_ne d k k' v : k <> k' -> owns (<[k := v]> d) k' = owns d k'.
Proof. intros ne. unfold owns. by rewrite lookup_insert_ne. Qed.

Lemma store_step_comm d x y :
  (x.1 = y.1 -> x.2 = y.2) ->
  store_step (store_step d x) y = store_step (store_step d y) x.
Proof.
  intros Hxy. destruct (decide (x.1 = y.1)) as [e|ne].
  - assert (x = y) as -> by (destruct x, y; simpl in *; f_equal; auto). done.
  - unfold store_step.
    destruct (owns d x.1) eqn:Hx, (owns d y.1) eqn:Hy;
      rewrite ?Hx, ?Hy, ?owns_insert_ne, ?Hx, ?Hy by done; try done.
    by apply insert_insert_ne.
Qed.

Lemma consistent_cons x attrs :
  Spec.consistent (x :: attrs) -> Spec.consistent attrs.
Proof.
  intros H k v1 v2 H1 H2. apply (H k); by apply elem_of_cons; right.
Qed.

Lemma consistent_perm attrs attrs' :
  attrs ≡ₚ attrs' -> Spec.consistent attrs -> Spec.consistent attrs'.
Proof.
  intros Hp H k v1 v2 H1 H2. apply (H k); by rewrite Hp.
Qed.

Lemma enrich_perm attrs attrs' :
  attrs ≡ₚ attrs' -> Spec.consistent attrs ->
  forall d, foldl store_step d attrs = foldl store_step d attrs'.
Proof.
  induction 1 as [|x l l' Hp IH|x y l|l l' l'' Hp1 IH1 Hp2 IH2];
    intros Hc d; simpl.
  - done.
  - apply IH. by eapply consistent_cons.
  - f_equal. apply store_step_comm. intros e.
    destruct x as [kx vx], y as [ky vy]; simpl in *. subst ky.
    apply (Hc kx); set_solver.
  - rewrite IH1 by done. apply IH2. by eapply consistent_perm.
Qed.

(** *** The loop with its failures *)

Lemma assign_inr d k v d' :
  assign d k v = inr d'
  <-> d !! "__setattr__" = None /\ refused k = false /\ d' = <[k := v]> d.
Proof.
  unfold assign, refused.
  destruct (d !! "__setattr__") as [f|].
  - split; [|by intros (? & _)]. by destruct f.
  - destruct (String.eqb k "__class__"); simpl.
    { split; [discriminate|]. by intros (_ & ? & _). }
    destruct (String.eqb k "__dict__"); simpl.
    { split; [discriminate|]. by intros (_ & ? & _). }
    destruct (String.eqb k "__weakref__"); simpl.
    { split; [discriminate|]. by intros (_ & ? & _). }
    split.
    + by intros [= <-].
    + by intros (_ & _ & ->).
Qed.

Lemma assign_store d kv d' :
  owns d kv.1 = false -> assign d kv.1 kv.2 = inr d' -> d' = store_step d kv.
Proof.
  intros Ho (_ & _ & ->)%assign_inr. unfold store_step. by rewrite Ho.
Qed.

(** The loop runs [store_step] over the pairs it gets through. *)
Lemma enrich_loop_prefix attrs : forall d,
  exists p rest,
    attrs = (p ++ rest)%list
    /\ (enrich_loop d attrs).1 = foldl store_step d p
    /\ ((enrich_loop d attrs).2 = None -> rest = []).
Proof.
  induction attrs as [|[k v] attrs IH]; intros d; simpl.
  - by exists [], [].
  - destruct (owns d k) eqn:Ho.
    + destruct (IH d) as (p & rest & -> & Hp & Hn).
      exists ((k, v) :: p), rest. repeat split; [|done].
      simpl. unfold store_step at 2. simpl. by rewrite Ho.
    + destruct (assign d k v) as [e|d'] eqn:Ha.
      * exists [], ((k, v) :: attrs). by repeat split.
      * apply (assign_store d (k, v)) in Ha; [|done]. subst d'.
        destruct (IH (store_step d (k, v))) as (p & rest & -> & Hp & Hn).
        by exists ((k, v) :: p), rest.
Qed.

Lemma enrich_loop_returns attrs d :
  (enrich_loop d attrs).2 = None ->
  (enrich_loop d attrs).1 = foldl store_step d attrs.
Proof.
  intros Hn. destruct (enrich_loop_prefix attrs d) as (p & rest & -> & Hp & Hr).
  rewrite (Hr Hn), app_nil_r in *. exact Hp.
Qed.

(** Without reserved names, and on an object that does not shadow
    [__setattr__], the loop runs to its end. *)
Lemma enrich_loop_plain attrs : forall d,
  d !! "__setattr__" = None ->
  Forall (fun kv => reserved kv.1 = false) attrs ->
  enrich_loop d attrs = (foldl store_step d attrs, None).
Proof.
  induction attrs as [|[k v] attrs IH]; intros d Hd Hr; simpl; [done|].
  apply Forall_cons in Hr as [Hk Hr]. simpl in Hk.
  apply orb_false_iff in Hk as [Hk1 Hk2]. apply String.eqb_neq in Hk2.
  unfold store_step at 2. simpl.
  destruct (owns d k); [by apply IH|].
  assert (assign d k v = inr (<[k := v]> d)) as -> by by apply assign_inr.
  apply IH; [|done]. by rewrite lookup_insert_ne.
Qed.

Lemma enrich_loop_keeps attrs d k v :
  d !! k = Some v -> is_not_None v = true ->
  (enrich_loop d attrs).1 !! k = Some v.
Proof.
  intros Hk Hv. destruct (enrich_loop_prefix attrs d) as (p & rest & _ & -> & _).
  by apply enrich_keeps.
Qed.

Lemma enrich_loop_settled attrs d kv :
  settled d kv -> settled (enrich_loop d attrs).1 kv.
Proof.
  intros H. destruct (enrich_loop_prefix attrs d) as (p & rest & _ & -> & _).
  by apply settled_foldl.
Qed.

(** Run again on the dictionary it left, the loop leaves it as it is. *)
Lemma enrich_loop_again attrs : forall d,
  (enrich_loop (enrich_loop d attrs).1 attrs).1 = (enrich_loop d attrs).1.
Proof.
  induction attrs as [|[k v] attrs IH]; intros d; [done|].
  cbn [enrich_loop]. destruct (owns d k) eqn:Ho.
  - assert (owns (enrich_loop d attrs).1 k = true) as ->; [|apply IH].
    apply owns_spec in Ho as (w & Hw & Hn). apply owns_spec. exists w.
    split; [|done]. by apply enrich_loop_keeps.
  - destruct (assign d k v) as [e|d'] eqn:Ha.
    + cbn [fst enrich_loop]. by rewrite Ho, Ha.
    + apply (assign_store d (k, v)) in Ha as ->; [|done].
      set (d1 := (enrich_loop (store_step d (k, v)) attrs).1).
      assert (Hs : settled d1 (k, v)) by apply enrich_loop_settled, settled_self.
      destruct (owns d1 k) eqn:Ho1; [apply IH|].
      destruct (assign d1 k v) as [e|d2] eqn:Ha2; [done|].
      apply (assign_store d1 (k, v)) in Ha2 as ->; [|done].
      rewrite Hs. apply IH.
Qed.

End enrich_facts.

(** C8, as stated, fails on its order clause: with a key that occurs twice
    the first pair of the sequence wins, so the two orders of
    [("color","blue"), ("color","green")] leave different colours. *)
Lemma enrich_from_graph_order_matters :
  [("color", VStr "blue"); ("color", VStr "green")]
    ≡ₚ [("color", VStr "green"); ("color", VStr "blue")]
  /\ GraphObj.enrich_from_graph Sample.entity
       [("color", VStr "blue"); ("color", VStr "green")]
     <> GraphObj.enrich_from_graph Sample.entity
          [("color", VStr "green"); ("color", VStr "blue")].
Proof.
  split; [apply perm_swap|].
  intros H.
  apply (f_equal (fun r => GraphObj.__dict__ r.1 !! "color")) in H.
  vm_compute in H. discriminate H.
Qed.

(** C8 (amended): [enrich_from_graph] never changes an attribute already
    bound to a non-null value, and applying it twice with the same
    sequence leaves the state of applying it once, whether it returns
    or raises.  On an object that does not shadow [__setattr__], and
    with no key among [__class__], [__dict__], [__weakref__] and
    [__setattr__] (the names whose assignment raises or breaks the
    assignments after it), the call returns, and reordering the
    sequence gives the same state when pairs that share a key share the
    value.  Such an entity with [color = "red"] and no shape, enriched
    with [("color","blue"), ("shape","box")], ends with [color = "red"]
    and [shape = "box"]. *)
Theorem enrich_from_graph_inherits (self : GraphObj.t)
    (attrs : list (string * pyval)) :
  (forall k v,
      GraphObj.__dict__ self !! k = Some v -> is_not_None v = true ->
      GraphObj.__dict__ (GraphObj.enrich_from_graph self attrs).1 !! k = Some v)
  /\ (GraphObj.enrich_from_graph
        (GraphObj.enrich_from_graph self attrs).1 attrs).1
     = (GraphObj.enrich_from_graph self attrs).1
  /\ (GraphObj.__dict__ self !! "__setattr__" = None ->
      Forall (fun kv => GraphObj.reserved kv.1 = false) attrs ->
      (GraphObj.enrich_from_graph self attrs).2 = None
      /\ forall attrs',
           attrs ≡ₚ attrs' -> Spec.consistent attrs ->
           GraphObj.enrich_from_graph self attrs'
           = GraphObj.enrich_from_graph self attrs)
  /\ (GraphObj.__dict__ self !! "__setattr__" = None ->
      GraphObj.__dict__ self !! "color" = Some (VStr "red") ->
      GraphObj.owns (GraphObj.__dict__ self) "shape" = false ->
      let r := GraphObj.enrich_from_graph self
                 [("color", VStr "blue"); ("shape", VStr "box")] in
      r.2 = None
      /\ GraphObj.__dict__ r.1 !! "color" = Some (VStr "red")
      /\ GraphObj.__dict__ r.1 !! "shape" = Some (VStr "box")).
Proof.
  split; [|split; [|split]].
  - intros k v Hk Hv. by apply enrich_loop_keeps.
  - unfold GraphObj.enrich_from_graph. cbn [fst GraphObj.__dict__].
    f_equal. apply enrich_loop_again.
  - intros Hd Hr. unfold GraphObj.enrich_from_graph.
    rewrite (enrich_loop_plain _ _ Hd Hr). split; [done|].
    intros attrs' Hp Hc.
    assert (Hr' : Forall (fun kv => GraphObj.reserved kv.1 = false) attrs')
      by by rewrite <- Hp.
    rewrite (enrich_loop_plain _ _ Hd Hr'). cbn [fst snd].
    by rewrite (enrich_perm _ _ Hp Hc).
  - intros Hd Hc Hs r. unfold r, GraphObj.enrich_from_graph.
    rewrite enrich_loop_plain; [|done|by repeat constructor].
    cbn [fst snd GraphObj.__dict__ foldl]. split; [done|].
    assert (GraphObj.store_step (GraphObj.__dict__ self) ("color", VStr "blue")
            = GraphObj.__dict__ self) as ->.
    { apply settled_owned, owns_spec. by exists (VStr "red"). }
    split.
    + unfold GraphObj.store_step; simpl. rewrite Hs.
      by rewrite lookup_insert_ne.
    + unfold GraphObj.store_step; simpl. rewrite Hs.
      apply lookup_insert_eq.
Qed.

(** The amended C8 at a concrete entity: [color = "red"] is kept and
    [shape = "box"] is inherited, in either order of the two pairs. *)
Lemma enrich_from_graph_inherits_witness :
  let red := {| GraphObj.__dict__ :=
                  <["color" := VStr "red"]> (GraphObj.__dict__ Sample.entity) |} in
  let attrs := [("color", VStr "blue"); ("shape", VStr "box")] in
  let attrs' := [("shape", VStr "box"); ("color", VStr "blue")] in
  (GraphObj.enrich_from_graph red attrs).2 = None
  /\ GraphObj.__dict__ (GraphObj.enrich_from_graph red attrs).1 !! "color"
     = Some (VStr "red")
  /\ GraphObj.__dict__ (GraphObj.enrich_from_graph red attrs).1 !! "shape"
     = Some (VStr "box")
  /\ GraphObj.enrich_from_graph red attrs'
     = GraphObj.enrich_from_graph red attrs.
Proof.
  intros red attrs attrs'.
  destruct (enrich_from_graph_inherits red attrs) as (_ & _ & Hperm & Hex).
  destruct Hex as (Hn & Hc & Hs); [reflexivity..|].
  destruct Hperm as [_ Hperm]; [reflexivity | by repeat constructor|].
  split; [exact Hn|]. split; [exact Hc|]. split; [exact Hs|].
  apply Hperm.
  - apply perm_swap.
  - intros k v1 v2 H1 H2.
    apply list_elem_of_In in H1, H2. simpl in H1, H2.
    destruct H1 as [[= <- <-]|[[= <- <-]|[]]];
      destruct H2 as [[= <-]|[[= <-]|[]]]; congruence.
Defined.

(** ** The class [Curve] *)

(** C9, as stated, fails: the constructor stores what it is given, so a
    Bezier [Curve] can be built whose [start] and [end] are not the first
    and last of its [points]. *)
Lemma curve_endpoints_not_enforced :
  let c := Curve.__init__ (Complex 0 0) (Complex 1 1) true
             [Complex 5 5; Complex 6 6; Complex 7 7; Complex 8 8] in
  Curve.is_bezier c = true /\ ~ Spec.endpoints_match c.
Proof.
  split; [reflexivity|].
  intros [(p & Hp & Hs & _) _]. simpl in Hp. injection Hp as <-.
  simpl in Hs. discriminate Hs.
Qed.

(** C9 (amended): [Curve.__init__] stores its four arguments unchanged
    and checks nothing, so the curve it builds satisfies
    [start == points[0]] and [end == points[-1]] exactly when the
    arguments passed to it do. *)
Theorem curve_init_stores_arguments (s e : complex) (b : bool)
    (pts : list complex) :
  let c := Curve.__init__ s e b pts in
  (Curve.start c = s /\ Curve.end_ c = e
   /\ Curve.is_bezier c = b /\ Curve.points c = pts)
  /\ (Spec.endpoints_match c <->
      (exists p, head pts = Some p /\ ceq s p)
      /\ (exists p, last pts = Some p /\ ceq e p)).
Proof.
  intros c. split; [by repeat split|]. unfold Spec.endpoints_match, c. done.
Qed.

(** [self.cb] is bound neither by [__init__] nor by the class body. *)
Lemma curve_has_no_cb (self : Curve.t) :
  Curve.getattr self "cb" = raise (AttributeError "Curve" "cb").
Proof. reflexivity. Qed.

(** [_cubic_bezier] raises on every argument: a list has no [real], and a
    number that has one is not subscriptable. *)
Lemma cubic_bezier_raises (p : pyval) (t : Q) :
  raises (Curve._cubic_bezier p t) = true.
Proof.
  unfold Curve._cubic_bezier.
  destruct p as [|b|x|re im|s|xs|name]; reflexivity.
Qed.

(** C1 (code defect): [cubic_bezier_coordinates] returns no point; for
    every curve and every [t], in particular [t = 0] and [t = 1], it
    raises [AttributeError] on [self.cb], an attribute that
    [Curve.__init__] never binds. *)
Theorem cubic_bezier_coordinates_raises (self : Curve.t) (t : Q) :
  Curve.cubic_bezier_coordinates self t = raise (AttributeError "Curve" "cb").
Proof.
  unfold Curve.cubic_bezier_coordinates, Curve._cb.
  rewrite curve_has_no_cb. reflexivity.
Qed.

(** The formula of the docstring does what C1 asks of the code: it
    passes through the first control point at 0 and the last at 1. *)
Lemma position_endpoints (P0 P1 P2 P3 : complex) :
  ceq (Spec.position P0 P1 P2 P3 0) P0 /\ ceq (Spec.position P0 P1 P2 P3 1) P3.
Proof.
  unfold ceq, Spec.position, Spec.B1; simpl. repeat split; ring.
Qed.

(** ** Subdivision *)

(** The point the two returned lists share is the quadratic
    interpolation of P0, P1, P2; the point of the curve at [t] is the
    middle entry of the second list. *)
Lemma lower_cubic_shape (P0 P1 P2 P3 : complex) (t : Q) :
  exists Q1 Q2 Q3,
    _lower_cubic_bezier_to_two_quadratics P0 P1 P2 P3 t
    = ([P0; Q1; Q2], [Q2; Q3; P3])
    /\ ceq Q3 (Spec.position P0 P1 P2 P3 t)
    /\ (real Q2 == (1 - t) ^ 2 * real P0 + 2 * (1 - t) * t * real P1
                   + t ^ 2 * real P2)%Q.
Proof.
  eexists _, _, _. split; [reflexivity|]. split.
  - unfold ceq, Spec.position, Spec.B1; simpl. split; ring.
  - simpl. ring.
Qed.

(** C2 (code defect): at [t = 1/2] on the control points 0, 0, 0, 8 the
    routine returns two lists of three points whose shared point is 0,
    while the curve is at 1 there: the shared point is not
    [position(1/2)], and neither list is a cubic segment. *)
Theorem lower_cubic_shared_point_off_curve :
  let P0 := Complex 0 0 in
  let P3 := Complex 8 0 in
  let halves := _lower_cubic_bezier_to_two_quadratics P0 P0 P0 P3 (1 # 2) in
  length halves.1 = 3%nat /\ length halves.2 = 3%nat
  /\ last halves.1 = head halves.2
  /\ (exists p, head halves.2 = Some p /\ ceq p (Complex 0 0)
                /\ ~ ceq p (Spec.position P0 P0 P0 P3 (1 # 2)))
  /\ ceq (Spec.position P0 P0 P0 P3 (1 # 2)) (Complex 1 0).
Proof.
  simpl. repeat split.
  eexists. split; [reflexivity|]. repeat split.
  intros [H _]. vm_compute in H. discriminate H.
Qed.

(** ** Linearity classification *)

Section is_linear_facts.
Local Open Scope Q_scope.


Lemma within_rel_tol_wd (tol a a' b : Q) :
  a == a' -> Spec.within_rel_tol tol a b <-> Spec.within_rel_tol tol a' b.
Proof.
  intros H. unfold Spec.within_rel_tol. rewrite H. reflexivity.
Qed.

(** [_line] declines exactly the pairs of equal abscissa. *)
Lemma line_None (s e : complex) : _line s e = None <-> real e == real s.
Proof.
  unfold _line. destruct (Qeq_bool (real e - real s) 0) eqn:E.
  - apply Qeq_bool_eq in E. split; [|reflexivity]. intros _.
    rewrite <- (Qplus_0_l (real s)), <- E. ring.
  - apply Qeq_bool_neq in E. split; [discriminate|].
    intros H. destruct E. rewrite H. ring.
Qed.


Lemma line_through_endpoints (s e : complex) :
  ~ real e == real s ->
  Spec.line_through s e (real s) == imag s
  /\ Spec.line_through s e (real e) == imag e.
Proof.
  intros H. assert (~ real e - real s == 0).
  { intros E. apply H. rewrite <- (Qplus_0_l (real s)), <- E. ring. }
  unfold Spec.line_through. split; field; assumption.
Qed.

Lemma complex_eqb_false (a b : complex) :
  complex_eqb a b = false -> real a == real b -> ~ imag a == imag b.
Proof.
  unfold complex_eqb. intros H Hr Hi.
  apply Qeq_eq_bool in Hr, Hi. rewrite Hr, Hi in H. discriminate H.
Qed.

(** A call that recurses hands the rotated curve to the next call. *)
Lemma is_linear_recurses (n : nat) (cb : CubicBezier) :
  Curve.recurses cb = true ->
  Curve.is_linear (S n) cb = Curve.is_linear n (_rotate_bezier cb).
Proof.
  unfold Curve.recurses. simpl.
  destruct (complex_eqb (cb_start cb) (cb_end cb)); [discriminate|].
  destruct (_line (cb_start cb) (cb_end cb)); [discriminate|reflexivity].
Qed.

(** A call that does not recurse returns at once. *)
Lemma is_linear_returns (n : nat) (cb : CubicBezier) :
  Curve.recurses cb = false -> exists b, Curve.is_linear (S n) cb = Some b.
Proof.
  unfold Curve.recurses. simpl.
  destruct (complex_eqb (cb_start cb) (cb_end cb)); [by eexists|].
  destruct (_line (cb_start cb) (cb_end cb)); [by eexists|discriminate].
Qed.

(** Its result does not depend on the fuel left. *)
Lemma is_linear_fuel_irrelevant (n : nat) (cb : CubicBezier) :
  Curve.recurses cb = false -> Curve.is_linear (S n) cb = Curve.is_linear 1 cb.
Proof.
  unfold Curve.recurses. simpl.
  destruct (complex_eqb (cb_start cb) (cb_end cb)); [reflexivity|].
  destruct (_line (cb_start cb) (cb_end cb)); [reflexivity|discriminate].
Qed.

(** The rotated curve of a recursing call does not recurse again. *)
Lemma rotate_settles (cb : CubicBezier) :
  Curve.recurses cb = true -> Curve.recurses (_rotate_bezier cb) = false.
Proof.
  unfold Curve.recurses.
  destruct (complex_eqb (cb_start cb) (cb_end cb)) eqn:Ene; [discriminate|].
  destruct (_line (cb_start cb) (cb_end cb)) eqn:El; [discriminate|].
  intros _. apply line_None in El.
  pose proof (complex_eqb_false _ _ Ene (Qeq_sym _ _ El)) as Him.
  destruct (_line (cb_start (_rotate_bezier cb)) (cb_end (_rotate_bezier cb)))
    eqn:El'.
  - apply andb_false_r.
  - apply line_None in El'. simpl in El'. destruct Him. by symmetry.
Qed.

(** After the rotation of a recursing call the abscissas differ. *)
Lemma rotate_abscissas (cb : CubicBezier) :
  Curve.recurses cb = true ->
  ~ real (cb_start (_rotate_bezier cb)) == real (cb_end (_rotate_bezier cb)).
Proof.
  unfold Curve.recurses.
  destruct (complex_eqb (cb_start cb) (cb_end cb)) eqn:Ene; [discriminate|].
  destruct (_line (cb_start cb) (cb_end cb)) eqn:El; [discriminate|].
  intros _. apply line_None in El. simpl.
  exact (complex_eqb_false _ _ Ene (Qeq_sym _ _ El)).
Qed.

End is_linear_facts.

(** ** Linearity classification over binary64 *)

Section is_linear_binary64.
Import PrimFloat.
Local Open Scope float_scope.

(** C3, as stated, fails under rounding.  On the curve from -2-1j to
    4+1j with both control points at the midpoint 1+0j of the chord, the
    line through start and end has ordinate 0 at abscissa 1, exactly the
    control points' ordinate; the code computes the slope 2/6 and the
    intercept in binary64, predicts an ordinate of -2^-54 and, its
    tolerance being relative, answers false. *)
Lemma is_linear_rounding_rejects_chord :
  B64.complex_eqb (B64.cb_start Demo64.chord) (B64.cb_end Demo64.chord) = false
  /\ (B64.real (B64.cb_start Demo64.chord)
      =? B64.real (B64.cb_end Demo64.chord)) = false
  /\ B64.is_linear 2 Demo64.chord = Some false
  /\ (B64.predicted (B64.cb_start Demo64.chord) (B64.cb_end Demo64.chord) 1
      =? -0x1p-54) = true
  /\ Spec.within_rel_tol (1 # 100)
       (Spec.line_through (cb_start Demo.chord_exact) (cb_end Demo.chord_exact)
          (real (control1 Demo.chord_exact)))
       (imag (control1 Demo.chord_exact))
  /\ Spec.within_rel_tol (1 # 100)
       (Spec.line_through (cb_start Demo.chord_exact) (cb_end Demo.chord_exact)
          (real (control2 Demo.chord_exact)))
       (imag (control2 Demo.chord_exact)).
Proof.
  split; [reflexivity|]. split; [reflexivity|]. split; [reflexivity|].
  split; [reflexivity|].
  split; vm_compute; intros H; discriminate H.
Qed.

(** C3 (amended): when [start == end], [is_linear] returns false;
    otherwise, when [end.real - start.real] is not zero, it returns true
    exactly when, for each of the two control points, [math.isclose]
    with [rel_tol = 0.01] accepts the ordinate the code predicts at the
    control point's abscissa, [m * x + b] with the slope [m], the
    intercept [b] and the sum each rounded to binary64, against the
    control point's ordinate. *)
Theorem is_linear_classifies_binary64 (cb : B64.CubicBezier) (n : nat) :
  (B64.complex_eqb (B64.cb_start cb) (B64.cb_end cb) = true ->
   B64.is_linear (S n) cb = Some false)
  /\ (B64.complex_eqb (B64.cb_start cb) (B64.cb_end cb) = false ->
      (B64.real (B64.cb_end cb) - B64.real (B64.cb_start cb) =? 0) = false ->
      exists r,
        B64.is_linear (S n) cb = Some r
        /\ (r = true <->
            B64.isclose
              (B64.predicted (B64.cb_start cb) (B64.cb_end cb)
                 (B64.real (B64.control1 cb)))
              (B64.imag (B64.control1 cb)) B64.rel_tol = true
            /\ B64.isclose
                 (B64.predicted (B64.cb_start cb) (B64.cb_end cb)
                    (B64.real (B64.control2 cb)))
                 (B64.imag (B64.control2 cb)) B64.rel_tol = true)).
Proof.
  split.
  - intros E. cbn [B64.is_linear]. by rewrite E.
  - intros E Hd. cbn [B64.is_linear]. rewrite E.
    unfold B64._line. rewrite Hd. eexists. split; [reflexivity|].
    apply andb_true_iff.
Qed.

(** The amended C3 at a self-loop, at a curve along the diagonal, and at
    the chord whose midpoint the rounding puts off the line. *)
Lemma is_linear_classifies_binary64_witness :
  B64.is_linear 1 Demo64.loop = Some false
  /\ (exists r, B64.is_linear 1 Demo64.diagonal = Some r /\ r = true)
  /\ (exists r, B64.is_linear 1 Demo64.chord = Some r /\ r <> true).
Proof.
  split; [|split].
  - apply (proj1 (is_linear_classifies_binary64 Demo64.loop 0)). reflexivity.
  - destruct (proj2 (is_linear_classifies_binary64 Demo64.diagonal 0)
                eq_refl eq_refl) as (r & Hr & Hiff).
    exists r. split; [exact Hr|]. apply Hiff. split; reflexivity.
  - destruct (proj2 (is_linear_classifies_binary64 Demo64.chord 0)
                eq_refl eq_refl) as (r & Hr & Hiff).
    exists r. split; [exact Hr|]. intros Ht. apply Hiff in Ht as [Ht _].
    vm_compute in Ht. discriminate Ht.
Defined.

End is_linear_binary64.

(** C4: [is_linear] returns on every cubic Bezier, and with at most one
    recursive call: two units of fuel always reach a [return], a call
    that does not recurse needs one, and the rotated curve handed to the
    recursive call never recurses again, because the [start == end] check
    leaves rotated endpoints of distinct abscissa. *)
Theorem is_linear_terminates (cb : CubicBezier) :
  (exists b, forall n, (2 <= n)%nat -> Curve.is_linear n cb = Some b)
  /\ (Curve.recurses cb = false -> exists b, Curve.is_linear 1 cb = Some b)
  /\ (Curve.recurses cb = true ->
      ~ (real (cb_start (_rotate_bezier cb))
         == real (cb_end (_rotate_bezier cb)))%Q
      /\ Curve.recurses (_rotate_bezier cb) = false
      /\ Curve.is_linear 2 cb = Curve.is_linear 1 (_rotate_bezier cb)).
Proof.
  split; [|split].
  - destruct (Curve.recurses cb) eqn:Hr.
    + pose proof (rotate_settles _ Hr) as Hr'.
      destruct (is_linear_returns 0 _ Hr') as [b Hb].
      exists b. intros [|[|n]] Hn; [lia|lia|].
      rewrite is_linear_recurses by done.
      by rewrite is_linear_fuel_irrelevant.
    + destruct (is_linear_returns 0 _ Hr) as [b Hb].
      exists b. intros [|n] Hn; [lia|].
      by rewrite is_linear_fuel_irrelevant.
  - apply is_linear_returns.
  - intros Hr. split; [by apply rotate_abscissas|].
    split; [by apply rotate_settles | by apply is_linear_recurses].
Qed.

(** C4 at a vertical curve: the first call recurses, the call on the
    rotated curve returns. *)
Lemma is_linear_terminates_witness :
  Curve.recurses (_rotate_bezier Sample.vertical) = false
  /\ Curve.is_linear 2 Sample.vertical
     = Curve.is_linear 1 (_rotate_bezier Sample.vertical)
  /\ exists b, Curve.is_linear 1 Sample.diagonal = Some b.
Proof.
  destruct (is_linear_terminates Sample.vertical) as (_ & _ & Hrec).
  destruct (is_linear_terminates Sample.diagonal) as (_ & Hret & _).
  split; [|split].
  - apply Hrec. reflexivity.
  - apply Hrec. reflexivity.
  - apply Hret. reflexivity.
Defined.


(** ** String scanning *)

Section str_facts.
Implicit Types (s a rest : string) (c x : ascii).

Lemma bind_ok {A B} (f : A -> res B) (v : A) : (ok v ≫= f) = f v.
Proof. reflexivity. Qed.

(** The scans agree with Python on overlapping and adjacent matches. *)
Example replace_overlapping : Str.replace "--" "->" "x---b" = "x->-b".
Proof. reflexivity. Qed.

Example replace_empty_pattern : Str.replace "" "-" "abc" = "-a-b-c-".
Proof. reflexivity. Qed.

Example split_adjacent :
  Str.split "->" "a->->b->" = ok ["a"; ""; "b"; ""].
Proof. reflexivity. Qed.

Example split_without_separator : Str.split ":" "A " = ok ["A "].
Proof. reflexivity. Qed.

Lemma append_nil_r s : s +:+ "" = s.
Proof.
  induction s as [|x s IH]; [done|].
  change (String x s +:+ "") with (String x (s +:+ "")). by rewrite IH.
Qed.

Lemma split_go_nonempty sep s : forall k, Str.split_go sep k s <> [].
Proof.
  induction s as [|x s IH]; intros k; simpl; [done|].
  destruct k; [|apply IH].
  destruct (Str.startswith sep (String x s)); [done|].
  by destruct (Str.split_go sep 0 s).
Qed.

(** The first piece of a split at colons is what precedes the first. *)
Lemma split_colon_head s :
  exists t, Str.split_go ":" 0 s = Spec.before_colon s :: t.
Proof.
  induction s as [|x s [t IH]]; [by eexists|].
  cbn [Str.split_go Spec.before_colon Str.startswith].
  rewrite (Ascii.eqb_sym ":" x).
  destruct (Ascii.eqb x ":"); [by eexists|].
  rewrite IH. by eexists.
Qed.

Lemma before_colon_node (node : string) (port : option string) :
  Str.lacks ":" node = true -> Spec.before_colon (Spec.token node port) = node.
Proof.
  induction node as [|x node IH]; simpl.
  - intros _. by destruct port.
  - intros [Hx Hn]%andb_true_iff. apply negb_true_iff in Hx.
    destruct port as [p|]; simpl in *; rewrite Hx; f_equal; by apply IH.
Qed.

(** Inside a piece that holds no two-character pattern and does not end
    with the pattern's first character, no match starts. *)
Lemma startswith_clean c1 c2 x a rest :
  Str.occurs (String c1 (String c2 "")) (String x a) = false ->
  Str.ends_with c1 (String x a) = false ->
  Str.startswith (String c1 (String c2 "")) (String x a +:+ rest) = false.
Proof.
  intros [Hs _]%orb_false_iff He. simpl in *.
  destruct (Ascii.eqb c1 x) eqn:E1; [|done].
  destruct a as [|y a]; simpl in *.
  - rewrite Ascii.eqb_sym in E1. congruence.
  - by destruct (Ascii.eqb c2 y).
Qed.

Lemma clean_tail c1 c2 x a :
  Str.occurs (String c1 (String c2 "")) (String x a) = false ->
  Str.ends_with c1 (String x a) = false ->
  Str.occurs (String c1 (String c2 "")) a = false /\ Str.ends_with c1 a = false.
Proof.
  intros [_ Ho]%orb_false_iff He. destruct a as [|y a]; [done|].
  split; [exact Ho | exact He].
Qed.

Lemma replace_go_clean c1 c2 new a rest :
  Str.occurs (String c1 (String c2 "")) a = false ->
  Str.ends_with c1 a = false ->
  Str.replace_go (String c1 (String c2 "")) new 0 (a +:+ rest)
  = a +:+ Str.replace_go (String c1 (String c2 "")) new 0 rest.
Proof.
  induction a as [|x a IH]; intros Ho He; [done|].
  pose proof (startswith_clean _ _ _ _ rest Ho He) as Hs.
  destruct (clean_tail _ _ _ _ Ho He) as [Ho' He'].
  change (String x a +:+ rest) with (String x (a +:+ rest)) in *.
  cbn [Str.replace_go]. rewrite Hs, IH by done. done.
Qed.

Lemma split_go_clean c1 c2 a rest h t :
  Str.occurs (String c1 (String c2 "")) a = false ->
  Str.ends_with c1 a = false ->
  Str.split_go (String c1 (String c2 "")) 0 rest = h :: t ->
  Str.split_go (String c1 (String c2 "")) 0 (a +:+ rest) = (a +:+ h) :: t.
Proof.
  intros Ho He Hr. induction a as [|x a IH]; [done|].
  pose proof (startswith_clean _ _ _ _ rest Ho He) as Hs.
  destruct (clean_tail _ _ _ _ Ho He) as [Ho' He'].
  change (String x a +:+ rest) with (String x (a +:+ rest)) in *.
  cbn [Str.split_go]. rewrite Hs, IH by done. done.
Qed.

(** A string in which the pattern does not occur is scanned unchanged. *)
Lemma replace_go_absent c p new s :
  Str.occurs (String c p) s = false ->
  Str.replace_go (String c p) new 0 s = s.
Proof.
  induction s as [|x s IH]; [done|].
  intros [Hs Ho]%orb_false_iff. cbn [Str.replace_go].
  rewrite Hs, IH by done. done.
Qed.

Lemma split_go_absent c p s :
  Str.occurs (String c p) s = false ->
  Str.split_go (String c p) 0 s = [s].
Proof.
  induction s as [|x s IH]; [done|].
  intros [Hs Ho]%orb_false_iff. cbn [Str.split_go].
  rewrite Hs, IH by done. done.
Qed.

(** The scans at a separator. *)
Lemma replace_at_dashes rest :
  Str.replace_go "--" "->" 0 ("--" +:+ rest)
  = "->" +:+ Str.replace_go "--" "->" 0 rest.
Proof. reflexivity. Qed.

Lemma replace_at_arrow rest :
  Str.replace_go "--" "->" 0 ("->" +:+ rest)
  = "->" +:+ Str.replace_go "--" "->" 0 rest.
Proof. reflexivity. Qed.

Lemma split_at_arrow rest :
  Str.split_go "->" 0 ("->" +:+ rest) = "" :: Str.split_go "->" 0 rest.
Proof. reflexivity. Qed.

(** Normalising and splitting a title of two separator-free tokens. *)
Lemma title_tokens (a b sep : string) :
  sep = "--" \/ sep = "->" ->
  Spec.separator_free a = true -> Str.ends_with "-" a = false ->
  Spec.separator_free b = true ->
  Str.split "->" (Str.replace "--" "->" (a +:+ sep +:+ b)) = ok [a; b].
Proof.
  unfold Spec.separator_free.
  intros Hsep [Ha1 Ha2]%andb_true_iff Hae [Hb1 Hb2]%andb_true_iff.
  apply negb_true_iff in Ha1, Ha2, Hb1, Hb2.
  unfold Str.split, Str.replace. f_equal.
  rewrite replace_go_clean by done.
  assert (Str.replace_go "--" "->" 0 (sep +:+ b) = "->" +:+ b) as ->.
  { destruct Hsep as [-> | ->];
      rewrite ?replace_at_dashes, ?replace_at_arrow;
      by rewrite replace_go_absent. }
  erewrite split_go_clean; [|done|done|].
  - by rewrite append_nil_r.
  - rewrite split_at_arrow. by rewrite split_go_absent.
Qed.

(** The two node identifiers of a title that splits into two tokens. *)
Lemma endpoints_of_tokens (title t1 t2 : string) :
  Str.split "->" (Str.replace "--" "->" title) = ok [t1; t2] ->
  EdgeFactory.endpoints title
  = ok (Spec.before_colon t1, Spec.before_colon t2).
Proof.
  intros H. unfold EdgeFactory.endpoints. rewrite H, bind_ok.
  cbn [unpack2]. rewrite bind_ok. unfold Str.split.
  destruct (split_colon_head t1) as [r1 ->].
  destruct (split_colon_head t2) as [r2 ->].
  reflexivity.
Qed.

(** What [endpoints] raises is a [ValueError] of the unpacking. *)
Lemma endpoints_raises (title : string) (e : exn) :
  EdgeFactory.endpoints title = raise e -> exists msg, e = ValueError msg.
Proof.
  unfold EdgeFactory.endpoints, Str.split. rewrite bind_ok.
  destruct (Str.split_go "->" 0 (Str.replace "--" "->" title))
    as [|t1 [|t2 [|t3 ts]]]; cbn [unpack2].
  - intros [= <-]. by eexists.
  - intros [= <-]. by eexists.
  - rewrite !bind_ok.
    destruct (split_colon_head t1) as [r1 ->].
    destruct (split_colon_head t2) as [r2 ->].
    discriminate.
  - intros [= <-]. by eexists.
Qed.

End str_facts.

(** ** Edge reconstruction ([EdgeFactory.from_svg]) *)

Section from_svg_facts.
Context {Text : Type}.
Variable Text_from_svg : Element -> string + Text.
Variable curve_factory_from_svg : string -> string + Curve.t.

Lemma no_title_child (g : Element) :
  Spec.has_title_child g = false <-> SVG.get_first g "title" = None.
Proof.
  unfold Spec.has_title_child, SVG.get_first, SVG.svg_tag.
  induction (children g) as [|c cs IH]; simpl; [done|].
  destruct (String.eqb (tag c) (SVG.NS_SVG +:+ "title")); simpl; [|exact IH].
  split; discriminate.
Qed.

Lemma labels_raise (els : list Element) (e : exn) :
  mapM (fun el => EdgeFactory.call (Text_from_svg el)) els = raise e ->
  exists what, e = Raised what.
Proof.
  revert e. induction els as [|el els IH]; intros e; simpl; [discriminate|].
  destruct (Text_from_svg el) as [what|txt]; simpl.
  - intros [= <-]. by eexists.
  - destruct (mapM _ els) as [e'|ls] eqn:E; simpl; [|discriminate].
    intros [= <-]. by apply IH.
Qed.

(** What lines 21 to 26 raise comes from a collaborator or from the
    lookup of the group's id. *)
Lemma assemble_raises (g : Element) (fr to : string) (e : exn) :
  EdgeFactory.assemble Text_from_svg curve_factory_from_svg g fr to = raise e ->
  (exists what, e = Raised what) \/ e = KeyError "id".
Proof.
  unfold EdgeFactory.assemble.
  destruct (mapM _ _) as [e'|ls] eqn:El; simpl.
  - intros [= <-]. left. by eapply labels_raise.
  - unfold EdgeFactory.curve_of.
    assert (Hc : forall (m : res (option Curve.t)) (k : option Curve.t -> res (EdgeFactory.Edge Text)),
               (forall e', m = raise e' -> exists what, e' = Raised what) ->
               (forall c e', k c = raise e' -> e' = KeyError "id") ->
               (m ≫= k) = raise e ->
               (exists what, e = Raised what) \/ e = KeyError "id").
    { intros [e'|c] k Hm Hk; simpl; [intros [= <-]; left; by apply Hm|].
      intros H. right. by eapply Hk. }
    apply Hc.
    + intros e'. destruct (SVG.get_first g "path") as [path|]; [|discriminate].
      destruct (attrib path !! "d") as [d|]; [|discriminate].
      destruct (curve_factory_from_svg d); simpl; [|discriminate].
      intros [= <-]. by eexists.
    + intros c e'. destruct (attrib g !! "id"); simpl; [discriminate|].
      by intros [= <-].
Qed.

Lemma from_svg_of_tokens (g : Element) (title t1 t2 : string) :
  SVG.get_title g = Some title ->
  Str.split "->" (Str.replace "--" "->" title) = ok [t1; t2] ->
  EdgeFactory.from_svg Text_from_svg curve_factory_from_svg g
  = EdgeFactory.assemble Text_from_svg curve_factory_from_svg g
      (Spec.before_colon t1) (Spec.before_colon t2).
Proof.
  intros Ht Hs. unfold EdgeFactory.from_svg.
  by rewrite Ht, (endpoints_of_tokens _ _ _ Hs), bind_ok.
Qed.

End from_svg_facts.

(** C5, as stated, fails on its second half: a group whose title child
    has no text, as [<title/>], has a title and is still rejected with
    the missing-title error. *)
Lemma empty_title_is_missing :
  let g := Sample.group [Sample.title None] in
  Spec.has_title_child g = true
  /\ EdgeFactory.from_svg Sample.label_of Sample.no_curves g
     = raise (MissingTitleError g).
Proof. split; reflexivity. Qed.

(** C5 (amended): a group with no title child, or whose first title
    child has no text, makes [from_svg] fail with the missing-title error
    that carries that very group, and no [Edge] is built; a group whose
    first title child has a text never raises the missing-title error. *)
Theorem from_svg_missing_title {Text : Type}
    (Text_from_svg : Element -> string + Text)
    (curve_factory_from_svg : string -> string + Curve.t) (g : Element) :
  (Spec.has_title_child g = false ->
   EdgeFactory.from_svg Text_from_svg curve_factory_from_svg g
   = raise (MissingTitleError g))
  /\ (forall el,
        SVG.get_first g "title" = Some el -> text el = None ->
        EdgeFactory.from_svg Text_from_svg curve_factory_from_svg g
        = raise (MissingTitleError g))
  /\ (forall el t,
        SVG.get_first g "title" = Some el -> text el = Some t ->
        forall g',
          EdgeFactory.from_svg Text_from_svg curve_factory_from_svg g
          <> raise (MissingTitleError g')).
Proof.
  unfold EdgeFactory.from_svg, SVG.get_title. split; [|split].
  - intros H%no_title_child. by rewrite H.
  - intros el -> ->. done.
  - intros el t -> -> g'.
    destruct (EdgeFactory.endpoints t) as [e|[fr to]] eqn:E; simpl.
    + apply endpoints_raises in E as [msg ->]. discriminate.
    + intros H. apply assemble_raises in H as [[what H]|H]; discriminate H.
Qed.

(** The amended C5 at a group without children and at a titled group. *)
Lemma from_svg_missing_title_witness :
  EdgeFactory.from_svg Sample.label_of Sample.no_curves (Sample.group [])
  = raise (MissingTitleError (Sample.group []))
  /\ EdgeFactory.from_svg Sample.label_of Sample.no_curves
       (Sample.group [Sample.title None])
     = raise (MissingTitleError (Sample.group [Sample.title None]))
  /\ EdgeFactory.from_svg Sample.label_of Sample.no_curves
       (Sample.group [Sample.title (Some "A->B")])
     <> raise (MissingTitleError (Sample.group [Sample.title (Some "A->B")])).
Proof.
  split; [|split].
  - apply (from_svg_missing_title Sample.label_of Sample.no_curves).
    reflexivity.
  - apply (from_svg_missing_title Sample.label_of Sample.no_curves
             (Sample.group [Sample.title None]))
      with (el := Sample.title None); reflexivity.
  - apply (from_svg_missing_title Sample.label_of Sample.no_curves
             (Sample.group [Sample.title (Some "A->B")]))
      with (el := Sample.title (Some "A->B")) (t := "A->B"); reflexivity.
Defined.

(** C6, as stated, fails on its example: nothing strips the blanks
    around the separator, so ["A:west -- B:east"] gives [to = " B"]. *)
Lemma from_svg_keeps_blanks :
  exists e,
    EdgeFactory.from_svg Sample.label_of Sample.no_curves
      (Sample.group [Sample.title (Some "A:west -- B:east")]) = ok e
    /\ EdgeFactory.fr e = "A" /\ EdgeFactory.to e = " B"
    /\ EdgeFactory.to e <> "B".
Proof. eexists. split; [reflexivity|]. by repeat split. Qed.

(** C7: when the normalised title does not split into exactly two
    tokens, [from_svg] raises a [ValueError] at the unpacking and
    returns no [Edge]. *)
Theorem from_svg_malformed_title {Text : Type}
    (Text_from_svg : Element -> string + Text)
    (curve_factory_from_svg : string -> string + Curve.t)
    (g : Element) (title : string) (tokens : list string) :
  SVG.get_title g = Some title ->
  Str.split "->" (Str.replace "--" "->" title) = ok tokens ->
  length tokens <> 2%nat ->
  exists msg,
    EdgeFactory.from_svg Text_from_svg curve_factory_from_svg g
    = raise (ValueError msg).
Proof.
  intros Ht Hs Hlen. unfold EdgeFactory.from_svg, EdgeFactory.endpoints.
  rewrite Ht, Hs, bind_ok.
  destruct tokens as [|t1 [|t2 [|t3 ts]]]; cbn [unpack2].
  - eexists. reflexivity.
  - eexists. reflexivity.
  - destruct Hlen. reflexivity.
  - eexists. reflexivity.
Qed.

(** C7 on a title without separator and on a title with two. *)
Lemma from_svg_malformed_title_witness :
  (exists msg,
     EdgeFactory.from_svg Sample.label_of Sample.no_curves
       (Sample.group [Sample.title (Some "AB")]) = raise (ValueError msg))
  /\ (exists msg,
        EdgeFactory.from_svg Sample.label_of Sample.no_curves
          (Sample.group [Sample.title (Some "A->B--C")])
        = raise (ValueError msg)).
Proof.
  split.
  - apply (from_svg_malformed_title Sample.label_of Sample.no_curves
             _ "AB" ["AB"]); [reflexivity | reflexivity | discriminate].
  - apply (from_svg_malformed_title Sample.label_of Sample.no_curves
             _ "A->B--C" ["A"; "B"; "C"]);
      [reflexivity | reflexivity | discriminate].
Defined.

(** * Further properties of the code *)

(** ** Curve: the rotation and the tolerance on the axis *)

Section curve_more.
Local Open Scope Q_scope.

Lemma rotate_keeps_eqb (cb : CubicBezier) :
  complex_eqb (cb_start (_rotate_bezier cb)) (cb_end (_rotate_bezier cb))
  = complex_eqb (cb_start cb) (cb_end cb).
Proof. unfold complex_eqb. simpl. apply andb_comm. Qed.

(** X2: Rotating twice gives the curve back, and a rotation keeps the
    outcome of the [start == end] test. *)
Theorem rotate_bezier_involutive (cb : CubicBezier) :
  _rotate_bezier (_rotate_bezier cb) = cb
  /\ complex_eqb (cb_start (_rotate_bezier cb)) (cb_end (_rotate_bezier cb))
     = complex_eqb (cb_start cb) (cb_end cb).
Proof.
  split.
  - destruct cb as [[? ?] [? ?] [? ?] [? ?]]. reflexivity.
  - apply rotate_keeps_eqb.
Qed.





End curve_more.

Section curve_witnesses.
Local Open Scope Q_scope.


End curve_witnesses.

(** ** Curve: subdivision at the bounds and the evaluation helpers *)

Section bezier_more.
Local Open Scope Q_scope.


(** X9: [cubic_bezier_derivative] returns no vector: like the evaluation it
    stops at [self.cb], for every curve and every [t]. *)
Theorem cubic_bezier_derivative_raises (self : Curve.t) (t : Q) :
  Curve.cubic_bezier_derivative self t = raise (AttributeError "Curve" "cb").
Proof.
  unfold Curve.cubic_bezier_derivative, Curve._cb.
  rewrite curve_has_no_cb. reflexivity.
Qed.

(** X10: On the argument their docstrings describe, a list of control
    points, and on a float or a complex number, the two static helpers
    return nothing: every such call raises. *)
Theorem bezier_helpers_raise (t : Q) :
  (forall xs,
     raises (Curve._cubic_bezier (VList xs) t) = true
     /\ raises (Curve._derivative_of_cubic_bezier (VList xs) t) = true)
  /\ (forall x,
        raises (Curve._cubic_bezier (VFloat x) t) = true
        /\ raises (Curve._derivative_of_cubic_bezier (VFloat x) t) = true)
  /\ (forall re im,
        raises (Curve._cubic_bezier (VComplex re im) t) = true
        /\ raises (Curve._derivative_of_cubic_bezier (VComplex re im) t) = true).
Proof. repeat split; reflexivity. Qed.

End bezier_more.

(** ** SVG accessors *)

Section svg_more.

Lemma find_first_match {A} (f : A -> bool) (l : list A) (x : A) :
  List.find f l = Some x
  <-> exists before after,
        l = (before ++ x :: after)%list /\ f x = true
        /\ Forall (fun c => f c = false) before.
Proof.
  induction l as [|c l IH]; simpl.
  - split; [discriminate|]. intros (b & a & H & _). by destruct b.
  - destruct (f c) eqn:Hc.
    + split.
      * intros [= <-]. exists [], l. by repeat split.
      * intros ([|c' b] & a & H & Hx & Hb); simplify_eq/=; [done|].
        apply Forall_cons in Hb as [Hc' _]. congruence.
    + rewrite IH. split.
      * intros (b & a & -> & Hx & Hb). exists (c :: b), a.
        repeat split; [done|]. by constructor.
      * intros ([|c' b] & a & H & Hx & Hb); simplify_eq/=; [congruence|].
        apply Forall_cons in Hb as [_ Hb]. by exists b, a.
Qed.

Lemma find_none_filter {A} (f : A -> bool) (l : list A) :
  List.find f l = None <-> length (List.filter f l) = 0%nat.
Proof.
  induction l as [|c l IH]; simpl; [done|].
  destruct (f c); simpl; [split; discriminate | exact IH].
Qed.

Lemma append_inj_l (p a b : string) : p +:+ a = p +:+ b -> a = b.
Proof.
  induction p as [|c p IH]; [done|].
  change (String c p +:+ a) with (String c (p +:+ a)).
  change (String c p +:+ b) with (String c (p +:+ b)).
  intros [= H]. by apply IH.
Qed.

(** X11: For a tag that is a plain name, [get_first] finds the first
    direct child of the tag: the element it returns is a child carrying
    the tag, and no child before it does. *)
Theorem get_first_first_match (g : Element) (t : string) (el : Element) :
  Spec.plain_tag t = true ->
  (SVG.get_first g t = Some el
   <-> exists before after,
         children g = (before ++ el :: after)%list
         /\ SVG.is_tag el t = true
         /\ Forall (fun c => SVG.is_tag c t = false) before).
Proof.
  intros _.
  exact (find_first_match (fun c => SVG.is_tag c t) (children g) el).
Qed.

(** X12: For a tag that is a plain name, [get_first] answers [None]
    exactly when [count_tags] counts no child of the tag, and
    [count_tags] never exceeds the number of children. *)
Theorem get_first_count_tags (g : Element) (t : string) :
  Spec.plain_tag t = true ->
  (SVG.get_first g t = None <-> SVG.count_tags g t = 0%nat)
  /\ (SVG.count_tags g t <= length (children g))%nat.
Proof.
  intros _. split.
  - exact (find_none_filter (fun c => SVG.is_tag c t) (children g)).
  - apply List.filter_length_le.
Qed.

(** X13: Only the first title and the first text child are read: whatever
    follows it, [get_title] (and [get_text]) is the text of the first
    child carrying the tag. *)
Theorem title_and_text_of_first (g : Element) (t : string)
    (before after : list Element) (el : Element) :
  children g = (before ++ el :: after)%list ->
  SVG.is_tag el t = true ->
  Forall (fun c => SVG.is_tag c t = false) before ->
  (t = "title" -> SVG.get_title g = text el)
  /\ (t = "text" -> SVG.get_text g = text el).
Proof.
  intros Hc Ht Hb.
  assert (SVG.get_first g t = Some el) as H.
  { apply (find_first_match (fun c => SVG.is_tag c t) (children g) el).
    by exists before, after. }
  unfold SVG.get_title, SVG.get_text. split; intros ->; by rewrite H.
Qed.

(** X14: An element carries one tag: what passes [is_tag] for one name fails
    it for every other, so a title is never taken for a label. *)
Theorem is_tag_exclusive (el : Element) (t1 t2 : string) :
  t1 <> t2 -> SVG.is_tag el t1 = true -> SVG.is_tag el t2 = false.
Proof.
  unfold SVG.is_tag, SVG.svg_tag. intros Hne H1%String.eqb_eq.
  apply String.eqb_neq. rewrite H1. intros H. by apply append_inj_l in H.
Qed.

(** On the sample group, whose second label and second path come after
    the ones that are read. *)
Lemma title_and_text_of_first_witness :
  SVG.get_title Demo.labelled = Some "a:n->b:s"
  /\ SVG.get_text Demo.labelled = Some "first".
Proof.
  split.
  - refine (proj1 (title_and_text_of_first Demo.labelled "title" [] _ _
                     eq_refl eq_refl _) eq_refl).
    constructor.
  - refine (proj2 (title_and_text_of_first Demo.labelled "text"
                     [_] _ _ eq_refl eq_refl _) eq_refl).
    repeat constructor.
Defined.

(** On the sample group, whose first label is its second child. *)
Lemma get_first_first_match_witness :
  SVG.get_first Demo.labelled "text"
  = Some (mkElement (SVG.svg_tag "text") ∅ (Some "first") []).
Proof.
  apply (get_first_first_match Demo.labelled "text"); [reflexivity|].
  eexists [_], _. split; [reflexivity|]. split; [reflexivity|].
  repeat constructor.
Defined.

(** The sample group has two labels and no circle. *)
Lemma get_first_count_tags_witness :
  SVG.get_first Demo.labelled "circle" = None
  /\ (SVG.count_tags Demo.labelled "text" <= 5)%nat.
Proof.
  split.
  - apply (get_first_count_tags Demo.labelled "circle"); reflexivity.
  - apply (get_first_count_tags Demo.labelled "text"). reflexivity.
Defined.

(** A title element is not a text element. *)
Lemma is_tag_exclusive_witness : SVG.is_tag (Sample.title None) "text" = false.
Proof.
  apply (is_tag_exclusive (Sample.title None) "title" "text");
    [discriminate | reflexivity].
Defined.

End svg_more.

(** ** Edge reconstruction: results and failures *)

Section from_svg_more.
Context {Text : Type}.
Variable Text_from_svg : Element -> string + Text.
Variable curve_factory_from_svg : string -> string + Curve.t.

Lemma labels_ok (els : list Element) (ls : list Text) :
  mapM (fun el => EdgeFactory.call (Text_from_svg el)) els = ok ls
  <-> Forall2 (fun el l => Text_from_svg el = inr l) els ls.
Proof.
  revert ls. induction els as [|el els IH]; intros ls; simpl.
  - split.
    + intros [= <-]. constructor.
    + intros H. by inversion H.
  - destruct (Text_from_svg el) as [what|l] eqn:E; simpl.
    + split; [discriminate|]. intros H. inversion H. congruence.
    + destruct (mapM _ els) as [e|ls'] eqn:Em; simpl.
      * split; [discriminate|]. intros H. inversion H as [|? ? ? ? ? Hr]; subst.
        apply IH in Hr. discriminate.
      * split.
        -- intros [= <-]. constructor; [done|]. by apply IH.
        -- intros H. inversion H as [|? l0 ? ls0 Hl Hr]; subst.
           apply IH in Hr. unfold ok in Hr. injection Hr as ->.
           rewrite E in Hl. injection Hl as ->. reflexivity.
Qed.

Lemma labels_fail (l1 l2 : list Element) (el : Element) (what : string) :
  Forall (fun c => exists l, Text_from_svg c = inr l) l1 ->
  Text_from_svg el = inl what ->
  mapM (fun el => EdgeFactory.call (Text_from_svg el)) (l1 ++ el :: l2)%list
  = raise (Raised what).
Proof.
  intros H1 He. induction H1 as [|c l1 [l Hc] _ IH]; simpl.
  - by rewrite He.
  - rewrite Hc. simpl. by rewrite IH.
Qed.

Lemma curve_of_path_data (g : Element) :
  EdgeFactory.curve_of curve_factory_from_svg g
  = match path_data g with
    | Some d => Some <$> EdgeFactory.call (curve_factory_from_svg d)
    | None => ok None
    end.
Proof.
  unfold EdgeFactory.curve_of, path_data.
  destruct (SVG.get_first g "path") as [path|]; [|done].
  by destruct (attrib path !! "d").
Qed.

Lemma curve_of_ok (g : Element) (c : option Curve.t) :
  EdgeFactory.curve_of curve_factory_from_svg g = ok c
  <-> match path_data g with
      | Some d => exists c', curve_factory_from_svg d = inr c' /\ c = Some c'
      | None => c = None
      end.
Proof.
  rewrite curve_of_path_data. destruct (path_data g) as [d|].
  - destruct (curve_factory_from_svg d) as [what|c']; simpl.
    + split; [discriminate|]. by intros (? & ? & _).
    + split.
      * intros [= <-]. by exists c'.
      * by intros (? & [= <-] & ->).
  - split; [by intros [= <-] | by intros ->].
Qed.

Lemma assemble_ok (g : Element) (fr to : string) (e : EdgeFactory.Edge Text) :
  EdgeFactory.assemble Text_from_svg curve_factory_from_svg g fr to = ok e
  <-> Forall2 (fun el l => Text_from_svg el = inr l)
        (text_children g) (EdgeFactory.labels e)
      /\ EdgeFactory.curve_of curve_factory_from_svg g = ok (EdgeFactory.curve e)
      /\ attrib g !! "id" = Some (EdgeFactory.sid e)
      /\ EdgeFactory.fr e = fr /\ EdgeFactory.to e = to.
Proof.
  unfold EdgeFactory.assemble. rewrite <- labels_ok.
  change (List.filter (fun tag => SVG.is_tag tag "text") (children g))
    with (text_children g).
  destruct (mapM _ (text_children g)) as [e1|ls]; simpl.
  { split; [discriminate|]. by intros (? & _). }
  destruct (EdgeFactory.curve_of curve_factory_from_svg g) as [e2|c]; simpl.
  { split; [discriminate|]. by intros (_ & ? & _). }
  destruct (attrib g !! "id") as [i|]; simpl.
  - split.
    + by intros [= <-].
    + intros ([= ->] & [= ->] & [= ->] & <- & <-). by destruct e.
  - split; [discriminate|]. by intros (_ & _ & ? & _).
Qed.

Lemma endpoints_ok (title fr to : string) :
  EdgeFactory.endpoints title = ok (fr, to)
  <-> exists t1 t2,
        Str.split "->" (Str.replace "--" "->" title) = ok [t1; t2]
        /\ fr = Spec.before_colon t1 /\ to = Spec.before_colon t2.
Proof.
  split.
  - unfold EdgeFactory.endpoints, Str.split. rewrite bind_ok.
    destruct (Str.split_go "->" 0 (Str.replace "--" "->" title))
      as [|t1 [|t2 [|t3 ts]]]; cbn [unpack2]; try discriminate.
    rewrite !bind_ok.
    destruct (split_colon_head t1) as [r1 H1].
    destruct (split_colon_head t2) as [r2 H2].
    rewrite H1, H2. intros [= <- <-]. by exists t1, t2.
  - intros (t1 & t2 & H & -> & ->). by apply endpoints_of_tokens.
Qed.

Lemma from_svg_ok (g : Element) (e : EdgeFactory.Edge Text) :
  EdgeFactory.from_svg Text_from_svg curve_factory_from_svg g = ok e
  <-> exists title t1 t2,
        SVG.get_title g = Some title
        /\ Str.split "->" (Str.replace "--" "->" title) = ok [t1; t2]
        /\ EdgeFactory.assemble Text_from_svg curve_factory_from_svg g
             (Spec.before_colon t1) (Spec.before_colon t2) = ok e.
Proof.
  unfold EdgeFactory.from_svg. destruct (SVG.get_title g) as [title|].
  - destruct (EdgeFactory.endpoints title) as [err|[fr to]] eqn:E;
      cbn [mbind res_bind].
    + split; [discriminate|]. intros (? & t1 & t2 & [= <-] & Hs & _).
      rewrite (endpoints_of_tokens _ _ _ Hs) in E. discriminate.
    + apply endpoints_ok in E as (t1 & t2 & Hs & -> & ->). split.
      * intros H. by exists title, t1, t2.
      * intros (title' & t1' & t2' & Ht' & Hs' & H).
        injection Ht' as <-. rewrite Hs in Hs'.
        unfold ok in Hs'. by injection Hs' as <- <-.
  - split; [discriminate|]. by intros (? & ? & ? & ? & _).
Qed.

Lemma lacks_before_colon (s : string) :
  Str.lacks ":" (Spec.before_colon s) = true.
Proof.
  induction s as [|c s IH]; [done|].
  cbn [Spec.before_colon]. destruct (Ascii.eqb c ":") eqn:E; [done|].
  cbn [Str.lacks]. by rewrite E, IH.
Qed.

(** X15: An edge that [from_svg] returns carries the id of its group and one
    label per [text] child, each the collaborator's reading of that
    child, in document order; so it has as many labels as [count_tags]
    counts [text] children. *)
Theorem from_svg_sid_and_labels (g : Element) (e : EdgeFactory.Edge Text) :
  EdgeFactory.from_svg Text_from_svg curve_factory_from_svg g = ok e ->
  attrib g !! "id" = Some (EdgeFactory.sid e)
  /\ Forall2 (fun el l => Text_from_svg el = inr l)
       (text_children g) (EdgeFactory.labels e)
  /\ length (EdgeFactory.labels e) = SVG.count_tags g "text".
Proof.
  intros (title & t1 & t2 & _ & _ & H)%from_svg_ok.
  apply assemble_ok in H as (Hl & _ & Hid & _). repeat split; [done|done|].
  apply Forall2_length in Hl. by rewrite <- Hl.
Qed.

(** X16: The node identifiers of a returned edge hold no colon. *)
Theorem from_svg_ids_without_colon (g : Element) (e : EdgeFactory.Edge Text) :
  EdgeFactory.from_svg Text_from_svg curve_factory_from_svg g = ok e ->
  Str.lacks ":" (EdgeFactory.fr e) = true
  /\ Str.lacks ":" (EdgeFactory.to e) = true.
Proof.
  intros (title & t1 & t2 & _ & _ & H)%from_svg_ok.
  apply assemble_ok in H as (_ & _ & _ & Hf & Ht).
  rewrite Hf, Ht. split; apply lacks_before_colon.
Qed.

(** X17: The curve of a returned edge comes from the first [path] child
    alone: it is what the factory makes of that child's [d], and there
    is no curve exactly when there is no [path] child or the first one
    has no [d], whatever later [path] children hold. *)
Theorem from_svg_curve (g : Element) (e : EdgeFactory.Edge Text) :
  EdgeFactory.from_svg Text_from_svg curve_factory_from_svg g = ok e ->
  (forall d, path_data g = Some d ->
     exists c, curve_factory_from_svg d = inr c /\ EdgeFactory.curve e = Some c)
  /\ (EdgeFactory.curve e = None <-> path_data g = None).
Proof.
  intros (title & t1 & t2 & _ & _ & H)%from_svg_ok.
  apply assemble_ok in H as (_ & Hc & _). apply curve_of_ok in Hc.
  destruct (path_data g) as [d|].
  - destruct Hc as (c & Hd & Hc). split.
    + intros ? [= <-]. by exists c.
    + rewrite Hc. split; discriminate.
  - split; [discriminate|]. done.
Qed.

(** X18: [from_svg] returns an edge exactly when the title splits into two
    tokens, the label collaborator accepts every [text] child, the
    curve factory accepts the data of the first [path] (if any), and
    the group has an id. *)
Theorem from_svg_returns_iff (g : Element) :
  (exists e, EdgeFactory.from_svg Text_from_svg curve_factory_from_svg g = ok e)
  <-> (exists title t1 t2,
         SVG.get_title g = Some title
         /\ Str.split "->" (Str.replace "--" "->" title) = ok [t1; t2])
      /\ Forall (fun el => exists l, Text_from_svg el = inr l) (text_children g)
      /\ (forall d, path_data g = Some d ->
            exists c, curve_factory_from_svg d = inr c)
      /\ (exists i, attrib g !! "id" = Some i).
Proof.
  split.
  - intros [e H]. pose proof H as (title & t1 & t2 & Ht & Hs & Ha)%from_svg_ok.
    apply assemble_ok in Ha as (Hl & Hc & Hid & _). repeat split.
    + by exists title, t1, t2.
    + clear -Hl. induction Hl; constructor; eauto.
    + intros d Hd. apply curve_of_ok in Hc. rewrite Hd in Hc.
      destruct Hc as (c & Hc & _). by exists c.
    + by eexists.
  - intros ((title & t1 & t2 & Ht & Hs) & Hl & Hc & [i Hid]).
    assert (exists ls, Forall2 (fun el l => Text_from_svg el = inr l)
                         (text_children g) ls) as [ls Hls].
    { clear -Hl. induction Hl as [|el els [l Hel] _ [ls IH]].
      - exists []. constructor.
      - exists (l :: ls). by constructor. }
    assert (exists c, EdgeFactory.curve_of curve_factory_from_svg g = ok c)
      as [c Hcv].
    { destruct (path_data g) as [d|] eqn:Hd.
      - destruct (Hc d eq_refl) as [c' Hc']. exists (Some c').
        apply curve_of_ok. rewrite Hd. by exists c'.
      - exists None. apply curve_of_ok. by rewrite Hd. }
    exists (EdgeFactory.mkEdge i (Spec.before_colon t1) (Spec.before_colon t2) c ls).
    apply from_svg_ok. exists title, t1, t2. repeat split; [done|done|].
    apply assemble_ok. by repeat split.
Qed.

(** X19: The failures of [from_svg] are four and no more: the missing title
    of this very group, the [ValueError] of the unpacking, whatever a
    collaborator raised, and the [KeyError] of a group without id. *)
Theorem from_svg_failures (g : Element) (err : exn) :
  EdgeFactory.from_svg Text_from_svg curve_factory_from_svg g = raise err ->
  err = MissingTitleError g
  \/ (exists msg, err = ValueError msg)
  \/ (exists what, err = Raised what)
  \/ err = KeyError "id".
Proof.
  unfold EdgeFactory.from_svg. destruct (SVG.get_title g) as [title|].
  - destruct (EdgeFactory.endpoints title) as [e|[fr to]] eqn:E; simpl.
    + intros [= <-]. right. left. by eapply endpoints_raises.
    + intros [H|H]%assemble_raises; auto.
  - intros [= <-]. by left.
Qed.

(** X20: A group that lacks only its id, with a sound title and willing
    collaborators, fails with [KeyError]. *)
Theorem from_svg_without_id (g : Element) (title t1 t2 : string) :
  SVG.get_title g = Some title ->
  Str.split "->" (Str.replace "--" "->" title) = ok [t1; t2] ->
  Forall (fun el => exists l, Text_from_svg el = inr l) (text_children g) ->
  (forall d, path_data g = Some d ->
     exists c, curve_factory_from_svg d = inr c) ->
  attrib g !! "id" = None ->
  EdgeFactory.from_svg Text_from_svg curve_factory_from_svg g
  = raise (KeyError "id").
Proof.
  intros Ht Hs Hl Hc Hid. rewrite (from_svg_of_tokens _ _ _ _ _ _ Ht Hs).
  unfold EdgeFactory.assemble.
  assert (exists ls, mapM (fun el => EdgeFactory.call (Text_from_svg el))
                       (text_children g) = ok ls) as [ls Hls].
  { clear -Hl. induction Hl as [|el els [l Hel] _ [ls IH]]; simpl.
    - by eexists.
    - rewrite Hel. simpl. rewrite IH. by eexists. }
  change (List.filter (fun tag => SVG.is_tag tag "text") (children g))
    with (text_children g).
  rewrite Hls, bind_ok. rewrite curve_of_path_data.
  destruct (path_data g) as [d|].
  - destruct (Hc d eq_refl) as [c ->]. simpl. by rewrite Hid.
  - simpl. by rewrite Hid.
Qed.

(** X21: The labels are read before the curve and the id: when the label
    collaborator rejects a [text] child, having accepted those before
    it, [from_svg] fails with what it raised, whatever the path data
    and the id. *)
Theorem from_svg_label_failure (g : Element) (title t1 t2 : string)
    (l1 l2 : list Element) (el : Element) (what : string) :
  SVG.get_title g = Some title ->
  Str.split "->" (Str.replace "--" "->" title) = ok [t1; t2] ->
  text_children g = (l1 ++ el :: l2)%list ->
  Forall (fun c => exists l, Text_from_svg c = inr l) l1 ->
  Text_from_svg el = inl what ->
  EdgeFactory.from_svg Text_from_svg curve_factory_from_svg g
  = raise (Raised what).
Proof.
  intros Ht Hs Hc Hl He. rewrite (from_svg_of_tokens _ _ _ _ _ _ Ht Hs).
  unfold EdgeFactory.assemble.
  change (List.filter (fun tag => SVG.is_tag tag "text") (children g))
    with (text_children g).
  by rewrite Hc, (labels_fail _ _ _ _ Hl He).
Qed.

End from_svg_more.

Section from_svg_witnesses.

Lemma from_svg_sid_and_labels_witness :
  attrib Demo.labelled !! "id" = Some "edge7"
  /\ Forall2 (fun el l => Sample.label_of el = inr l)
       (text_children Demo.labelled) ["first"; "second"]
  /\ length ["first"; "second"] = SVG.count_tags Demo.labelled "text".
Proof.
  apply (from_svg_sid_and_labels Sample.label_of Demo.one_segment
           Demo.labelled Demo.edge7).
  reflexivity.
Defined.

Lemma from_svg_ids_without_colon_witness :
  Str.lacks ":" "a" = true /\ Str.lacks ":" "b" = true.
Proof.
  apply (from_svg_ids_without_colon Sample.label_of Demo.one_segment
           Demo.labelled Demo.edge7).
  reflexivity.
Defined.

Lemma from_svg_curve_witness :
  (forall d, path_data Demo.labelled = Some d ->
     exists c, Demo.one_segment d = inr c
               /\ EdgeFactory.curve Demo.edge7 = Some c)
  /\ (EdgeFactory.curve Demo.edge7 = None <-> path_data Demo.labelled = None).
Proof.
  apply (from_svg_curve Sample.label_of Demo.one_segment
           Demo.labelled Demo.edge7).
  reflexivity.
Defined.

Lemma from_svg_returns_iff_witness :
  exists e,
    EdgeFactory.from_svg Sample.label_of Demo.one_segment Demo.labelled = ok e.
Proof.
  apply (from_svg_returns_iff Sample.label_of Demo.one_segment Demo.labelled).
  repeat split.
  - exists "a:n->b:s", "a:n", "b:s". split; reflexivity.
  - repeat constructor; eexists; reflexivity.
  - intros d _. eexists. reflexivity.
  - eexists. reflexivity.
Defined.

Lemma from_svg_failures_witness :
  MissingTitleError (Sample.group []) = MissingTitleError (Sample.group [])
  \/ (exists msg, MissingTitleError (Sample.group []) = ValueError msg)
  \/ (exists what, MissingTitleError (Sample.group []) = Raised what)
  \/ MissingTitleError (Sample.group []) = KeyError "id".
Proof.
  apply (from_svg_failures Sample.label_of Sample.no_curves (Sample.group [])).
  reflexivity.
Defined.

Lemma from_svg_without_id_witness :
  EdgeFactory.from_svg Sample.label_of Demo.one_segment Demo.anonymous
  = raise (KeyError "id").
Proof.
  apply (from_svg_without_id Sample.label_of Demo.one_segment
           Demo.anonymous "a:n->b:s" "a:n" "b:s").
  - reflexivity.
  - reflexivity.
  - repeat constructor; eexists; reflexivity.
  - intros d _. eexists. reflexivity.
  - reflexivity.
Defined.

Lemma from_svg_label_failure_witness :
  EdgeFactory.from_svg Sample.label_of Sample.no_curves Demo.half_labelled
  = raise (Raised "text element without text").
Proof.
  apply (from_svg_label_failure Sample.label_of Sample.no_curves
           Demo.half_labelled "a--b" "a" "b"
           [mkElement (SVG.svg_tag "text") ∅ (Some "first") []] []
           (mkElement (SVG.svg_tag "text") ∅ None [])).
  - reflexivity.
  - reflexivity.
  - reflexivity.
  - repeat constructor. eexists. reflexivity.
  - reflexivity.
Defined.

End from_svg_witnesses.

(** ** Edge reconstruction: the node identifiers *)

Section from_svg_ids.
Context {Text : Type}.
Variable Text_from_svg : Element -> string + Text.
Variable curve_factory_from_svg : string -> string + Curve.t.

(** With willing collaborators and an id, lines 21 to 26 build the edge
    with the identifiers they are handed. *)
Lemma assemble_returns (g : Element) (fr to i : string) :
  Forall (fun el => exists l, Text_from_svg el = inr l) (text_children g) ->
  (forall d, path_data g = Some d ->
     exists c, curve_factory_from_svg d = inr c) ->
  attrib g !! "id" = Some i ->
  exists c ls,
    EdgeFactory.assemble Text_from_svg curve_factory_from_svg g fr to
    = ok (EdgeFactory.mkEdge i fr to c ls).
Proof.
  intros Hl Hc Hid.
  assert (exists ls, Forall2 (fun el l => Text_from_svg el = inr l)
                       (text_children g) ls) as [ls Hls].
  { clear -Hl. induction Hl as [|el els [l Hel] _ [ls IH]].
    - exists []. constructor.
    - exists (l :: ls). by constructor. }
  assert (exists c, EdgeFactory.curve_of curve_factory_from_svg g = ok c)
    as [c Hcv].
  { destruct (path_data g) as [d|] eqn:Hd.
    - destruct (Hc d eq_refl) as [c' Hc']. exists (Some c').
      apply curve_of_ok. rewrite Hd. by exists c'.
    - exists None. apply curve_of_ok. by rewrite Hd. }
  exists c, ls. apply assemble_ok. by repeat split.
Qed.

(** The edge of a title that splits into two tokens: whenever one is
    returned it carries the parts before the first colons, and one is
    returned when the collaborators are willing and the group has an
    id. *)
Lemma from_svg_ids (g : Element) (title t1 t2 : string) :
  SVG.get_title g = Some title ->
  Str.split "->" (Str.replace "--" "->" title) = ok [t1; t2] ->
  (forall e,
     EdgeFactory.from_svg Text_from_svg curve_factory_from_svg g = ok e ->
     EdgeFactory.fr e = Spec.before_colon t1
     /\ EdgeFactory.to e = Spec.before_colon t2)
  /\ (Forall (fun el => exists l, Text_from_svg el = inr l) (text_children g) ->
      (forall d, path_data g = Some d ->
         exists c, curve_factory_from_svg d = inr c) ->
      forall i, attrib g !! "id" = Some i ->
      exists c ls,
        EdgeFactory.from_svg Text_from_svg curve_factory_from_svg g
        = ok (EdgeFactory.mkEdge i (Spec.before_colon t1)
                (Spec.before_colon t2) c ls)).
Proof.
  intros Ht Hs. rewrite (from_svg_of_tokens _ _ _ _ _ _ Ht Hs). split.
  - intros e He. by apply assemble_ok in He as (_ & _ & _ & ? & ?).
  - intros Hl Hc i Hid. by apply assemble_returns.
Qed.

End from_svg_ids.

(** C6 (amended): for a title [<source>[:port] sep <target>[:port]] whose
    separator is ["--"] or ["->"] and whose tokens hold no separator,
    the edge [from_svg] returns has [fr = <source>] and [to = <target>],
    the same for either separator and with each token cut at its colon,
    and it is returned whenever the collaborators succeed and the group
    has an id.  Nothing else is cut, so the blanks around the separator
    stay: ["A:west -- B:east"] yields [fr = "A"] and [to = " B"], and
    ["A:west--B:east"] yields [fr = "A"] and [to = "B"]. *)
Theorem from_svg_reads_title {Text : Type}
    (Text_from_svg : Element -> string + Text)
    (curve_factory_from_svg : string -> string + Curve.t) :
  (forall (g : Element) (source target : string)
      (port1 port2 : option string) (sep : string),
      sep = "--" \/ sep = "->" ->
      Str.lacks ":" source = true -> Str.lacks ":" target = true ->
      Spec.separator_free (Spec.token source port1) = true ->
      Str.ends_with "-" (Spec.token source port1) = false ->
      Spec.separator_free (Spec.token target port2) = true ->
      SVG.get_title g
      = Some (Spec.token source port1 +:+ sep +:+ Spec.token target port2) ->
      (forall e,
         EdgeFactory.from_svg Text_from_svg curve_factory_from_svg g = ok e ->
         EdgeFactory.fr e = source /\ EdgeFactory.to e = target)
      /\ (Forall (fun el => exists l, Text_from_svg el = inr l)
            (text_children g) ->
          (forall d, path_data g = Some d ->
             exists c, curve_factory_from_svg d = inr c) ->
          forall i, attrib g !! "id" = Some i ->
          exists c ls,
            EdgeFactory.from_svg Text_from_svg curve_factory_from_svg g
            = ok (EdgeFactory.mkEdge i source target c ls)))
  /\ EdgeFactory.from_svg Text_from_svg curve_factory_from_svg
       (Sample.group [Sample.title (Some "A:west -- B:east")])
     = ok (EdgeFactory.mkEdge "edge1" "A" " B" None [])
  /\ EdgeFactory.from_svg Text_from_svg curve_factory_from_svg
       (Sample.group [Sample.title (Some "A:west--B:east")])
     = ok (EdgeFactory.mkEdge "edge1" "A" "B" None []).
Proof.
  split; [|split; reflexivity].
  intros g source target port1 port2 sep Hsep Hs Ht Hf1 He1 Hf2 Htitle.
  pose proof (from_svg_ids Text_from_svg curve_factory_from_svg g _ _ _
                Htitle (title_tokens _ _ _ Hsep Hf1 He1 Hf2)) as H.
  by rewrite !before_colon_node in H.
Qed.

(** The amended C6 on the two spellings of an edge with ports, with a
    label and a path among the children. *)
Lemma from_svg_reads_title_witness :
  (exists c ls,
     EdgeFactory.from_svg Sample.label_of Demo.one_segment Demo.ported_undirected
     = ok (EdgeFactory.mkEdge "edge9" "A" "B" c ls))
  /\ (exists c ls,
        EdgeFactory.from_svg Sample.label_of Demo.one_segment Demo.ported_directed
        = ok (EdgeFactory.mkEdge "edge9" "A" "B" c ls))
  /\ (forall e,
        EdgeFactory.from_svg Sample.label_of Demo.one_segment Demo.ported_undirected
        = ok e ->
        EdgeFactory.fr e = "A" /\ EdgeFactory.to e = "B").
Proof.
  pose proof (proj1 (from_svg_reads_title Sample.label_of Demo.one_segment)
                Demo.ported_undirected "A" "B" (Some "west") (Some "east") "--"
                (or_introl eq_refl) eq_refl eq_refl eq_refl eq_refl eq_refl
                eq_refl) as [Hids Hret].
  pose proof (proj1 (from_svg_reads_title Sample.label_of Demo.one_segment)
                Demo.ported_directed "A" "B" (Some "west") (Some "east") "->"
                (or_intror eq_refl) eq_refl eq_refl eq_refl eq_refl eq_refl
                eq_refl) as [_ Hret'].
  split; [|split].
  - apply Hret; [|intros d _; eexists; reflexivity|reflexivity].
    repeat constructor; eexists; reflexivity.
  - apply Hret'; [|intros d _; eexists; reflexivity|reflexivity].
    repeat constructor; eexists; reflexivity.
  - exact Hids.
Defined.

(** C10: an endpoint token is cut at its first colon, whatever follows:
    when the normalised title splits into two tokens [<node>:<rest>] or
    [<node>], with no colon in [<node>] and any number of colons in
    [<rest>], the edge [from_svg] returns has the two [<node>] parts as
    [fr] and [to], and it is returned whenever the collaborators succeed
    and the group has an id; the token ["A:p:c"] gives the node id
    ["A"]. *)
Theorem from_svg_first_colon {Text : Type}
    (Text_from_svg : Element -> string + Text)
    (curve_factory_from_svg : string -> string + Curve.t)
    (g : Element) (title node1 node2 : string) (rest1 rest2 : option string) :
  SVG.get_title g = Some title ->
  Str.split "->" (Str.replace "--" "->" title)
  = ok [Spec.token node1 rest1; Spec.token node2 rest2] ->
  Str.lacks ":" node1 = true -> Str.lacks ":" node2 = true ->
  (forall e,
     EdgeFactory.from_svg Text_from_svg curve_factory_from_svg g = ok e ->
     EdgeFactory.fr e = node1 /\ EdgeFactory.to e = node2)
  /\ (Forall (fun el => exists l, Text_from_svg el = inr l) (text_children g) ->
      (forall d, path_data g = Some d ->
         exists c, curve_factory_from_svg d = inr c) ->
      forall i, attrib g !! "id" = Some i ->
      exists c ls,
        EdgeFactory.from_svg Text_from_svg curve_factory_from_svg g
        = ok (EdgeFactory.mkEdge i node1 node2 c ls)).
Proof.
  intros Ht Hs H1 H2.
  pose proof (from_svg_ids Text_from_svg curve_factory_from_svg g _ _ _ Ht Hs)
    as H.
  by rewrite !before_colon_node in H.
Qed.

(** C10 on the tokens ["A:p:c"] and ["B:x:y:z"]. *)
Lemma from_svg_first_colon_witness :
  (forall e,
     EdgeFactory.from_svg Sample.label_of Sample.no_curves
       (Sample.group [Sample.title (Some "A:p:c->B:x:y:z")]) = ok e ->
     EdgeFactory.fr e = "A" /\ EdgeFactory.to e = "B")
  /\ exists c ls,
       EdgeFactory.from_svg Sample.label_of Sample.no_curves
         (Sample.group [Sample.title (Some "A:p:c->B:x:y:z")])
       = ok (EdgeFactory.mkEdge "edge1" "A" "B" c ls).
Proof.
  pose proof (from_svg_first_colon Sample.label_of Sample.no_curves
                (Sample.group [Sample.title (Some "A:p:c->B:x:y:z")])
                "A:p:c->B:x:y:z" "A" "B" (Some "p:c") (Some "x:y:z")
                eq_refl eq_refl eq_refl eq_refl) as [Hids Hret].
  split; [exact Hids|].
  apply Hret; [constructor | discriminate | reflexivity].
Defined.

(** ** Attribute inheritance: which keys change, and to what *)

Section enrich_more.
Import GraphObj.
#[local] Set Warnings "-clear-no-such-hyp".
Implicit Types (d : gmap string pyval) (kv : string * pyval)
  (attrs : list (string * pyval)).

Lemma store_step_other d kv k :
  kv.1 <> k -> store_step d kv !! k = d !! k.
Proof.
  intros ne. unfold store_step. destruct (owns d kv.1); [done|].
  by rewrite lookup_insert_ne.
Qed.

Lemma store_other attrs : forall d k,
  k ∉ attrs.*1 -> foldl store_step d attrs !! k = d !! k.
Proof.
  induction attrs as [|kv attrs IH]; intros d k Hk; simpl; [done|].
  rewrite fmap_cons in Hk. apply not_elem_of_cons in Hk as [Hne Hk].
  rewrite IH by done. by apply store_step_other.
Qed.

Lemma store_step_dom d kv : dom (store_step d kv) = dom d ∪ {[kv.1]}.
Proof.
  unfold store_step. destruct (owns d kv.1) eqn:Ho.
  - apply owns_spec in Ho as (v & Hv & _).
    assert (kv.1 ∈ dom d) by (apply elem_of_dom; eauto). set_solver.
  - rewrite dom_insert_L. set_solver.
Qed.

Lemma store_dom attrs : forall d,
  dom (foldl store_step d attrs) = dom d ∪ list_to_set attrs.*1.
Proof.
  induction attrs as [|kv attrs IH]; intros d; simpl.
  - set_solver.
  - rewrite IH, store_step_dom. set_solver.
Qed.

(** X22: Enrichment touches the keys of the sequence and no other,
    whether it returns or raises: every other attribute reads as
    before, and no name is bound afterwards but those bound before and
    the keys of the sequence; after a normal return all of these are
    bound. *)
Theorem enrich_touches_only_its_keys (self : GraphObj.t) attrs :
  (forall k, k ∉ attrs.*1 ->
     __dict__ (enrich_from_graph self attrs).1 !! k = __dict__ self !! k)
  /\ dom (__dict__ (enrich_from_graph self attrs).1)
     ⊆ dom (__dict__ self) ∪ list_to_set attrs.*1
  /\ ((enrich_from_graph self attrs).2 = None ->
      dom (__dict__ (enrich_from_graph self attrs).1)
      = dom (__dict__ self) ∪ list_to_set attrs.*1).
Proof.
  unfold enrich_from_graph. cbn [fst snd __dict__].
  destruct (enrich_loop_prefix attrs (__dict__ self))
    as (p & rest & Hattrs & Hp & Hn).
  split; [|split].
  - intros k Hk. rewrite Hp. apply store_other.
    rewrite Hattrs, fmap_app in Hk. set_solver.
  - rewrite Hp, store_dom, Hattrs, fmap_app. set_solver.
  - intros H. rewrite (enrich_loop_returns _ _ H). apply store_dom.
Qed.

Lemma store_step_fresh d k v :
  owns d k = false -> store_step d (k, v) = <[k := v]> d.
Proof. intros Ho. unfold store_step. cbn [fst snd]. by rewrite Ho. Qed.

(** The pairs of key [k] in a sequence all carry [None]. *)
Local Abbreviation none_for k l :=
  (Forall (fun kv : string * pyval => kv.1 = k -> kv.2 = VNone) l).

Lemma store_step_unowned d kv k :
  owns d k = false -> (kv.1 = k -> kv.2 = VNone) ->
  owns (store_step d kv) k = false.
Proof.
  intros Ho Hkv. unfold store_step. destruct (owns d kv.1) eqn:Ho'; [done|].
  unfold owns. destruct (decide (kv.1 = k)) as [e|ne].
  - rewrite e, lookup_insert_eq, (Hkv e). done.
  - rewrite lookup_insert_ne by done. exact Ho.
Qed.

Lemma store_unowned attrs : forall d k,
  owns d k = false -> none_for k attrs ->
  owns (foldl store_step d attrs) k = false.
Proof.
  induction attrs as [|kv attrs IH]; intros d k Ho Hn; simpl; [done|].
  apply Forall_cons in Hn as [Hkv Hn].
  apply IH; [|done]. by apply store_step_unowned.
Qed.

Lemma store_none attrs : forall d k,
  owns d k = false -> none_for k attrs -> k ∈ attrs.*1 ->
  foldl store_step d attrs !! k = Some VNone.
Proof.
  induction attrs as [|kv attrs IH]; intros d k Ho Hn Hin; simpl.
  - by apply elem_of_nil in Hin.
  - apply Forall_cons in Hn as [Hkv Hn].
    pose proof (store_step_unowned _ _ _ Ho Hkv) as Ho'.
    destruct (decide (k ∈ attrs.*1)) as [Hk|Hk]; [by apply IH|].
    rewrite store_other by done.
    rewrite fmap_cons in Hin. apply elem_of_cons in Hin as [->|Hin]; [|done].
    unfold store_step. rewrite Ho, lookup_insert_eq. f_equal. by apply Hkv.
Qed.

(** X23: After a normal return, an attribute the entity did not own
    (absent, or bound to [None]) holds the value of the first pair of
    its key that is not [None]; when every pair of its key carries
    [None], it is bound to [None]. *)
Theorem enrich_first_value_wins (self : GraphObj.t) attrs (k : string) :
  owns (__dict__ self) k = false ->
  (enrich_from_graph self attrs).2 = None ->
  (forall l1 v l2,
     attrs = (l1 ++ (k, v) :: l2)%list -> none_for k l1 ->
     is_not_None v = true ->
     __dict__ (enrich_from_graph self attrs).1 !! k = Some v)
  /\ (none_for k attrs -> k ∈ attrs.*1 ->
      __dict__ (enrich_from_graph self attrs).1 !! k = Some VNone).
Proof.
  unfold enrich_from_graph. cbn [fst snd __dict__].
  intros Ho Hret. rewrite (enrich_loop_returns _ _ Hret). split.
  - intros l1 v l2 -> Hn Hv.
    rewrite foldl_app. cbn [foldl]. apply enrich_keeps; [|done].
    rewrite store_step_fresh by by apply store_unowned.
    apply lookup_insert_eq.
  - intros Hn Hin. by apply store_none.
Qed.

Lemma owns_delete_ne d k k' : k <> k' -> owns (delete k d) k' = owns d k'.
Proof. intros ne. unfold owns. by rewrite lookup_delete_ne. Qed.

Lemma delete_keeps_unshadowed d k :
  d !! "__setattr__" = None -> delete k d !! "__setattr__" = None.
Proof.
  intros H. destruct (decide (k = "__setattr__")) as [->|ne].
  - apply lookup_delete_eq.
  - by rewrite lookup_delete_ne.
Qed.

Lemma enrich_loop_delete_none attrs : forall d k,
  d !! k = Some VNone -> k ∈ attrs.*1 ->
  (enrich_loop d attrs).2 = None ->
  enrich_loop (delete k d) attrs = enrich_loop d attrs.
Proof.
  induction attrs as [|[k' v'] attrs IH]; intros d k Hd Hin Hn.
  - by apply elem_of_nil in Hin.
  - cbn [enrich_loop] in *. destruct (decide (k' = k)) as [e|ne].
    + subst k'.
      assert (Ho : owns d k = false) by (unfold owns; by rewrite Hd).
      assert (owns (delete k d) k = false) as ->
        by (unfold owns; by rewrite lookup_delete_eq).
      rewrite Ho in *.
      destruct (assign d k v') as [err|d'] eqn:Ha; [discriminate Hn|].
      apply assign_inr in Ha as (Hs & Hr & ->).
      assert (assign (delete k d) k v' = inr (<[k := v']> (delete k d))) as ->.
      { apply assign_inr. repeat split; [|done].
        by apply delete_keeps_unshadowed. }
      by rewrite insert_delete_eq.
    + rewrite fmap_cons in Hin. apply elem_of_cons in Hin as [->|Hin]; [done|].
      rewrite owns_delete_ne by done.
      destruct (owns d k'); [by apply IH|].
      destruct (assign d k' v') as [err|d'] eqn:Ha; [discriminate Hn|].
      apply assign_inr in Ha as (Hs & Hr & ->).
      assert (assign (delete k d) k' v' = inr (<[k' := v']> (delete k d))) as ->.
      { apply assign_inr. repeat split; [|done].
        by apply delete_keeps_unshadowed. }
      rewrite <- delete_insert_ne by done.
      apply IH; [|done|done]. by rewrite lookup_insert_ne.
Qed.

(** X24: An attribute bound to [None] counts as absent: when the
    sequence names its key and the call returns, the call on the entity
    with that attribute removed returns as well, in the same state. *)
Theorem enrich_none_as_absent (self : GraphObj.t) attrs (k : string) :
  __dict__ self !! k = Some VNone -> k ∈ attrs.*1 ->
  (enrich_from_graph self attrs).2 = None ->
  enrich_from_graph {| __dict__ := delete k (__dict__ self) |} attrs
  = enrich_from_graph self attrs.
Proof.
  intros Hd Hin Hn. unfold enrich_from_graph in *. cbn [fst snd __dict__] in *.
  by rewrite enrich_loop_delete_none.
Qed.

End enrich_more.

Section enrich_witnesses.
Import GraphObj.

Lemma enrich_touches_only_its_keys_witness :
  __dict__ (enrich_from_graph Sample.entity [("color", VStr "blue")]).1 !! "sid"
  = Some (VStr "edge1")
  /\ dom (__dict__ (enrich_from_graph Sample.entity [("color", VStr "blue")]).1)
     = dom (__dict__ Sample.entity) ∪ list_to_set [("color", VStr "blue")].*1.
Proof.
  destruct (enrich_touches_only_its_keys Sample.entity
              [("color", VStr "blue")]) as (Hframe & _ & Hdom).
  split.
  - rewrite (Hframe "sid"); [reflexivity|].
    intros H. apply list_elem_of_singleton in H. discriminate H.
  - apply Hdom. reflexivity.
Defined.

Lemma enrich_first_value_wins_witness :
  __dict__ (enrich_from_graph Demo.colourless
              [("color", VNone); ("color", VStr "blue");
               ("color", VStr "green")]).1 !! "color"
  = Some (VStr "blue").
Proof.
  apply (proj1 (enrich_first_value_wins Demo.colourless
                  [("color", VNone); ("color", VStr "blue");
                   ("color", VStr "green")] "color" eq_refl eq_refl)
           [("color", VNone)] (VStr "blue") [("color", VStr "green")]).
  - reflexivity.
  - repeat constructor.
  - reflexivity.
Defined.

Lemma enrich_none_as_absent_witness :
  enrich_from_graph
    {| __dict__ := delete "color" (__dict__ Demo.colourless) |}
    [("color", VStr "blue")]
  = enrich_from_graph Demo.colourless [("color", VStr "blue")].
Proof.
  apply (enrich_none_as_absent Demo.colourless [("color", VStr "blue")] "color").
  - reflexivity.
  - apply list_elem_of_singleton. reflexivity.
  - reflexivity.
Defined.

End enrich_witnesses.
